(** * Verification of the RAG chat backend (chatbot-backend)

    A shallow embedding of [ingest.py], [qdrant_client_lib.py], [main.py]
    and [auth.py], and the properties of the chunker, the embedder's retry
    loop, the ingestion pipeline, the two collection set-ups, the /chat
    prompt assembly and the sign-up path.

    Conventions.
    - A Python [int] is a [Z]; a Python [str] is a [string]; [len] is
      [py_len]; a slice [s[a:b]] is [py_slice], with CPython's index
      adjustment (negative indices count from the end, all clipped).
    - A [while] loop takes fuel: one unit per evaluation of its condition;
      [None] means the fuel ran out.
    - Calls to the services outside the repository (embedding service,
      Qdrant, Gemini) are recorded, in order, in a trace of events.
    - The Qdrant client is the synchronous [QdrantClient] that
      [get_qdrant_client] builds: its methods make their request and return
      a plain value, so an [await] applied to one raises [TypeError] once
      the request is made ([await_plain]). The upsert of the ingestion run
      goes through [asyncio.to_thread], whose result is awaitable.
    - [print] and [logging] calls are not modelled, nor is the PostgreSQL
      pool, which no route queries. *)

From Stdlib Require Import ZArith String Ascii List Bool Lia Floats.
From stdpp Require Import gmap strings list fin_maps.
Import ListNotations.

Local Open Scope string_scope.
Local Open Scope list_scope.
Local Open Scope Z_scope.

(** ** Python strings *)

Module Py.

(** [len(s)] *)
Definition py_len (s : string) : Z := Z.of_nat (String.length s).

(** The index adjustment of a slice with step 1 (CPython's
    [PySlice_AdjustIndices]). *)
Definition adjust_index (i len : Z) : Z :=
  if i <? 0 then (if i + len <? 0 then 0 else i + len)
  else if len <=? i then len else i.

(** [s[start:stop]] *)
Definition py_slice (s : string) (start stop : Z) : string :=
  let len := py_len s in
  let lo := adjust_index start len in
  let hi := adjust_index stop len in
  if lo <? hi then substring (Z.to_nat lo) (Z.to_nat (hi - lo)) s else "".

(** Truth value of a [str]: [not s] holds of the empty string only. *)
Definition py_truthy (s : string) : bool :=
  match s with
  | EmptyString => false
  | String _ _ => true
  end.

(** [sep.join(parts)] *)
Fixpoint py_join (sep : string) (parts : list string) : string :=
  match parts with
  | [] => ""
  | [p] => p
  | p :: rest => p ++ sep ++ py_join sep rest
  end.

(** [s.endswith(suffix)] *)
Definition py_endswith (s suffix : string) : bool :=
  let n := String.length s in
  let k := String.length suffix in
  (k <=? n)%nat && String.eqb (substring (n - k) k s) suffix.

(** [str.isspace] on one character; characters are code points below 256. *)
Definition is_space (c : ascii) : bool :=
  let n := nat_of_ascii c in
  ((9 <=? n) && (n <=? 13) || (28 <=? n) && (n <=? 32) || (n =? 133) || (n =? 160))%nat.

Fixpoint py_lstrip (s : string) : string :=
  match s with
  | EmptyString => EmptyString
  | String c s' => if is_space c then py_lstrip s' else s
  end.

Fixpoint py_rstrip (s : string) : string :=
  match s with
  | EmptyString => EmptyString
  | String c s' =>
      let r := py_rstrip s' in
      if is_space c && negb (py_truthy r) then EmptyString else String c r
  end.

(** [s.strip()] *)
Definition py_strip (s : string) : string := py_rstrip (py_lstrip s).

(** The text is empty or made of white space only. *)
Fixpoint all_space (s : string) : bool :=
  match s with
  | EmptyString => true
  | String c s' => is_space c && all_space s'
  end.

End Py.
Import Py.

(** ** ingest.py: the chunker *)

Definition MAX_CHUNK_SIZE : Z := 1000.
Definition OVERLAP_SIZE : Z := 200.

(** The [while start < len(text)] loop of [chunk_text]; the state is
    [start] and [chunks]. *)
Fixpoint chunk_loop (fuel : nat) (text : string) (max_chunk_size overlap_size : Z)
    (start : Z) (chunks : list string) : option (list string) :=
  match fuel with
  | O => None
  | S fuel' =>
      if start <? py_len text then
        let end_ := start + max_chunk_size in
        let chunks' := chunks ++ [py_slice text start end_] in
        chunk_loop fuel' text max_chunk_size overlap_size
          (start + (max_chunk_size - overlap_size)) chunks'
      else Some chunks
  end.

Definition chunk_text (fuel : nat) (text : string) (max_chunk_size overlap_size : Z)
    : option (list string) :=
  if negb (py_truthy text) then Some []
  else chunk_loop fuel text max_chunk_size overlap_size 0 [].

(** The call never returns: no amount of fuel lets the loop finish. *)
Definition chunk_text_diverges (text : string) (W O : Z) : Prop :=
  forall fuel, chunk_text fuel text W O = None.

(** Ceiling of [a / b], for [b > 0]. *)
Definition ceil_div (a b : Z) : Z := (a + b - 1) / b.

(** Number of windows of step [W - O] that start inside a text of length [L]. *)
Definition chunk_count (L W O : Z) : nat := Z.to_nat (ceil_div L (W - O)).

(** The window that chunk [i] is cut from: it starts at [i * (W - O)] and
    runs for [W] characters, clipped to the end of the text. *)
Definition window_start (W O : Z) (i : nat) : Z := Z.of_nat i * (W - O).
Definition window_stop (L W O : Z) (i : nat) : Z := Z.min (window_start W O i + W) L.

Definition window (text : string) (W O : Z) (i : nat) : string :=
  substring (Z.to_nat (window_start W O i))
            (Z.to_nat (window_stop (py_len text) W O i - window_start W O i)) text.

Definition windows (text : string) (W O : Z) : list string :=
  map (window text W O) (seq 0 (chunk_count (py_len text) W O)).

(** Index [j] of the text lies inside chunk [i] of [chunks], which is taken
    to start at [i * (W - O)]. *)
Definition covered (W O : Z) (chunks : list string) (j : Z) : Prop :=
  exists (i : nat) (c : string),
    chunks !! i = Some c /\
    window_start W O i <= j < window_start W O i + py_len c.

(** The chunk count the specification states. *)
Definition spec_chunk_count (L W O : Z) : Z := ceil_div (Z.max (L - O) 1) (W - O).

(** ** Values exchanged with the services *)

(** An embedding is a [list[float]]. *)
Definition Vector : Type := list PrimFloat.float.

(** Values of a point's payload dict. *)
Inductive PayloadValue : Type :=
| PStr (s : string)
| PInt (z : Z).

(** [models.PointStruct(id=..., vector=..., payload=...)] *)
Record PointStruct : Type := {
  ps_id : Z;
  ps_vector : Vector;
  ps_payload : gmap string PayloadValue
}.

(** A search hit: [result.payload] may be [None]. *)
Record ScoredPoint : Type := {
  sp_id : Z;
  sp_payload : option (gmap string PayloadValue)
}.

(** A Qdrant collection: [VectorParams(size=..., distance=COSINE)] and the
    points held, by id. *)
Record Collection : Type := {
  vectors_size : Z;
  col_points : gmap Z PointStruct
}.

Inductive Exn : Type :=
| HTTPException (status_code : Z) (detail : string)
| ServiceError (message : string)
| TypeError
| AwaitTypeError (type_name : string).

Inductive Result (A : Type) : Type :=
| Ok (a : A)
| Raise (e : Exn).
Arguments Ok {A} a.
Arguments Raise {A} e.

(** [await x] where [x] is the outcome of a call of the synchronous
    [QdrantClient]: the call has been made; a value it returned is no
    awaitable, so the [await] raises [TypeError], naming the type of the
    value; an exception of the call is raised as it is. *)
Definition await_plain {A : Type} (type_name : string) (r : Result A) : Result A :=
  match r with
  | Ok _ => Raise (AwaitTypeError type_name)
  | Raise e => Raise e
  end.

(** What the [try] body of [generate_embedding] does: it returns
    [result['embedding']], raises [ResourceExhausted], or raises another
    [Exception]. *)
Inductive EmbedOutcome : Type :=
| Embedded (v : Vector)
| ResourceExhausted
| OtherException.

(** Calls that leave the process, in the order they are made. *)
Inductive Event : Type :=
| EvEmbedContent (model content task_type : string)
| EvSleep (delay : Z)
| EvRecreateCollection (collection_name : string) (size : Z)
| EvGetCollections
| EvCreateCollection (collection_name : string) (size : Z)
| EvUpsert (collection_name : string) (points : list PointStruct)
| EvSearch (collection_name : string) (query_vector : Vector) (limit : Z)
| EvGenerateContent (prompt : string).

(** The number of embedding requests among some events. *)
Fixpoint embed_calls (evs : list Event) : nat :=
  match evs with
  | [] => 0
  | EvEmbedContent _ _ _ :: rest => S (embed_calls rest)
  | _ :: rest => embed_calls rest
  end.

(** The batches of points that some events upsert, in order. *)
Fixpoint upserted (evs : list Event) : list (list PointStruct) :=
  match evs with
  | [] => []
  | EvUpsert _ pts :: rest => pts :: upserted rest
  | _ :: rest => upserted rest
  end.

(** [asyncio.sleep] is the one event that is not a network call. *)
Definition is_network_call (e : Event) : bool :=
  match e with
  | EvSleep _ => false
  | _ => true
  end.

(** The services and the environment the backend runs against. The
    embedding service and the LLM are state machines of their own; the file
    tree and the configuration are fixed during a run. *)
Class Services : Type := {
  EmbedSvc : Type;
  embed_content : EmbedSvc -> string -> string -> string -> EmbedOutcome * EmbedSvc;
  LLMSvc : Type;
  generate_content_async : LLMSvc -> string -> Result string * LLMSvc;
  search_rank : gmap Z PointStruct -> Vector -> Z -> list ScoredPoint;
  os_walk : string -> list (string * list string);
  read_text : string -> option string;
  os_path_join : string -> string -> string;
  os_path_relpath : string -> string -> string;
  DOCS_PATH : string;
  QDRANT_HOST : option string;
  QDRANT_API_KEY : option string
}.

(** ** qdrant_client_lib.py *)

Definition QDRANT_COLLECTION_NAME : string := "book_content".

Record QdrantClient : Type := {
  client_host : option string;
  client_api_key : option string
}.

(** An instance of a class with neither [__bool__] nor [__len__] is true. *)
Definition object_truthy {A : Type} (o : A) : bool := true.

(** [GenerativeModel('gemini-1.5-flash')] *)
Record GenerativeModel : Type := { model_name : string }.

(** The module globals and the state of the services. *)
Record World `{Services} : Type := {
  qdrant_client_instance : option QdrantClient;
  gemini_model : option GenerativeModel;
  embed_svc : EmbedSvc;
  llm_svc : LLMSvc;
  qdrant_collections : gmap string Collection;
  trace : list Event
}.

Section Model.
Context `{Services}.

Definition set_client (c : option QdrantClient) (w : World) : World :=
  {| qdrant_client_instance := c; gemini_model := gemini_model w;
     embed_svc := embed_svc w; llm_svc := llm_svc w;
     qdrant_collections := qdrant_collections w; trace := trace w |}.

Definition set_embed_svc (s : EmbedSvc) (w : World) : World :=
  {| qdrant_client_instance := qdrant_client_instance w; gemini_model := gemini_model w;
     embed_svc := s; llm_svc := llm_svc w;
     qdrant_collections := qdrant_collections w; trace := trace w |}.

Definition set_llm_svc (s : LLMSvc) (w : World) : World :=
  {| qdrant_client_instance := qdrant_client_instance w; gemini_model := gemini_model w;
     embed_svc := embed_svc w; llm_svc := s;
     qdrant_collections := qdrant_collections w; trace := trace w |}.

Definition set_collections (cs : gmap string Collection) (w : World) : World :=
  {| qdrant_client_instance := qdrant_client_instance w; gemini_model := gemini_model w;
     embed_svc := embed_svc w; llm_svc := llm_svc w;
     qdrant_collections := cs; trace := trace w |}.

(** Record one more call. *)
Definition emit (e : Event) (w : World) : World :=
  {| qdrant_client_instance := qdrant_client_instance w; gemini_model := gemini_model w;
     embed_svc := embed_svc w; llm_svc := llm_svc w;
     qdrant_collections := qdrant_collections w; trace := trace w ++ [e] |}.

Definition get_qdrant_client (w : World) : QdrantClient * World :=
  match qdrant_client_instance w with
  | None =>
      let c := {| client_host := QDRANT_HOST; client_api_key := QDRANT_API_KEY |} in
      (c, set_client (Some c) w)
  | Some c => (c, w)
  end.

(** The client calls, as the Qdrant API documents them.
    [recreate_collection] drops the collection, if there is one, and creates
    it empty. *)
Definition client_recreate_collection (name : string) (size : Z) (w : World) : World :=
  set_collections
    (<[name := {| vectors_size := size; col_points := ∅ |}]> (qdrant_collections w))
    (emit (EvRecreateCollection name size) w).

(** [get_collections]: the names of the collections. *)
Definition client_get_collections (w : World) : list string * World :=
  (map fst (map_to_list (qdrant_collections w)), emit EvGetCollections w).

(** [create_collection] is refused when the name is taken. *)
Definition client_create_collection (name : string) (size : Z) (w : World)
    : Result unit * World :=
  let w := emit (EvCreateCollection name size) w in
  match qdrant_collections w !! name with
  | Some _ => (Raise (ServiceError "Collection already exists"), w)
  | None =>
      (Ok tt,
       set_collections
         (<[name := {| vectors_size := size; col_points := ∅ |}]> (qdrant_collections w)) w)
  end.

(** [upsert] inserts or replaces points by id. *)
Definition upsert_points (points : list PointStruct) (c : Collection) : Collection :=
  {| vectors_size := vectors_size c;
     col_points := fold_left (fun m p => <[ps_id p := p]> m) points (col_points c) |}.

Definition client_upsert (name : string) (points : list PointStruct) (w : World)
    : Result unit * World :=
  let w := emit (EvUpsert name points) w in
  match qdrant_collections w !! name with
  | None => (Raise (ServiceError "Collection not found"), w)
  | Some c =>
      (Ok tt, set_collections (<[name := upsert_points points c]> (qdrant_collections w)) w)
  end.

Definition client_search (name : string) (query_vector : Vector) (limit : Z) (w : World)
    : Result (list ScoredPoint) * World :=
  let w := emit (EvSearch name query_vector limit) w in
  match qdrant_collections w !! name with
  | None => (Raise (ServiceError "Collection not found"), w)
  | Some c => (Ok (search_rank (col_points c) query_vector limit), w)
  end.

(** [name in existing_collections] *)
Definition name_in (name : string) (names : list string) : bool :=
  existsb (String.eqb name) names.

Definition initialize_qdrant_collection (w : World) : Result unit * World :=
  let (client, w) := get_qdrant_client w in
  let (collections_response, w) := client_get_collections w in
  match await_plain "CollectionsResponse" (Ok collections_response) with
  | Raise e => (Raise e, w)
  | Ok existing_collections =>
      if negb (name_in QDRANT_COLLECTION_NAME existing_collections) then
        let (created, w) := client_create_collection QDRANT_COLLECTION_NAME 1536 w in
        (await_plain "bool" created, w)
      else (Ok tt, w)
  end.

Definition close_qdrant_client (w : World) : World :=
  match qdrant_client_instance w with
  | Some _ => set_client None w
  | None => w
  end.

End Model.

(** ** ingest.py: the embedder and the ingestion run *)

Definition EMBEDDING_MODEL : string := "models/embedding-001".
Definition DEFAULT_MAX_RETRIES : Z := 5.
Definition DEFAULT_DELAY : Z := 5.

Record IngestState `{Services} : Type := {
  points : list PointStruct;
  point_id_counter : Z;
  ing_world : World
}.

Section Ingest.
Context `{Services}.

(** One [genai.embed_content] call. *)
Definition call_embed_content (text : string) (w : World) : EmbedOutcome * World :=
  let (r, s) := embed_content (embed_svc w) EMBEDDING_MODEL text "retrieval_document" in
  (r, set_embed_svc s (emit (EvEmbedContent EMBEDDING_MODEL text "retrieval_document") w)).

(** The [for attempt in range(max_retries)] loop, with [n] attempts left. *)
Fixpoint embedding_attempts (n : nat) (text : string) (delay : Z) (w : World)
    : option Vector * World :=
  match n with
  | O => (None, w)
  | S n' =>
      let (r, w) := call_embed_content text w in
      match r with
      | Embedded v => (Some v, w)
      | ResourceExhausted => embedding_attempts n' text delay (emit (EvSleep delay) w)
      | OtherException => (None, w)
      end
  end.

(** [range(n)] is empty for [n <= 0]. *)
Definition generate_embedding (text : string) (max_retries delay : Z) (w : World)
    : option Vector * World :=
  embedding_attempts (Z.to_nat max_retries) text delay w.

(** The answers the embedding service gives to [n] requests for [text] in
    a row, starting in state [s]. *)
Fixpoint svc_outcomes (n : nat) (text : string) (s : EmbedSvc) : list EmbedOutcome :=
  match n with
  | O => []
  | S n' =>
      let (r, s') := embed_content s EMBEDDING_MODEL text "retrieval_document" in
      r :: svc_outcomes n' text s'
  end.

(** The events of an attempt that met the rate limit: the request, then the
    wait. *)
Definition limited_attempt (text : string) (delay : Z) : list Event :=
  [EvEmbedContent EMBEDDING_MODEL text "retrieval_document"; EvSleep delay].

(** The events of an attempt that returned, or raised another exception. *)
Definition final_attempt (text : string) : list Event :=
  [EvEmbedContent EMBEDDING_MODEL text "retrieval_document"].

(** Lines 55 to 61: the collection set-up of the ingestion run. The
    client recreates the collection and returns [True], which is awaited. *)
Definition ingest_ensure_collection (w : World) : Result bool * World :=
  let (qdrant_client, w) := get_qdrant_client w in
  let w := client_recreate_collection QDRANT_COLLECTION_NAME 768 w in
  (await_plain "bool" (Ok true), w).

(** The body of [for i, chunk in enumerate(chunks)]. *)
Definition ingest_chunk (file_path : string) (i : Z) (chunk : string) (st : IngestState)
    : IngestState :=
  if negb (py_truthy (py_strip chunk)) then st
  else
    let (embedding, w) :=
      generate_embedding chunk DEFAULT_MAX_RETRIES DEFAULT_DELAY (ing_world st) in
    match embedding with
    | None =>
        {| points := points st; point_id_counter := point_id_counter st; ing_world := w |}
    | Some v =>
        let metadata : gmap string PayloadValue :=
          <["file_path" := PStr (os_path_relpath file_path DOCS_PATH)]>
            (<["chunk_index" := PInt i]> (<["text" := PStr chunk]> ∅)) in
        {| points := points st ++
                     [{| ps_id := point_id_counter st; ps_vector := v; ps_payload := metadata |}];
           point_id_counter := point_id_counter st + 1;
           ing_world := w |}
    end.

Fixpoint ingest_chunks (file_path : string) (i : Z) (chunks : list string) (st : IngestState)
    : IngestState :=
  match chunks with
  | [] => st
  | chunk :: rest => ingest_chunks file_path (i + 1) rest (ingest_chunk file_path i chunk st)
  end.

(** The body of [for file_name in files]. A failed read raises inside the
    [try], which leaves the state as it is. [None]: [chunk_text] did not
    return; with the sizes of this module one loop test per character is
    fuel enough for it to return (lemma [chunk_text_default]). *)
Definition ingest_file (root file_name : string) (st : IngestState) : option IngestState :=
  if py_endswith file_name ".md" || py_endswith file_name ".mdx" then
    let file_path := os_path_join root file_name in
    match read_text file_path with
    | None => Some st
    | Some content =>
        match chunk_text (S (String.length content)) content MAX_CHUNK_SIZE OVERLAP_SIZE with
        | None => None
        | Some chunks => Some (ingest_chunks file_path 0 chunks st)
        end
    end
  else Some st.

Fixpoint ingest_files (root : string) (files : list string) (st : IngestState)
    : option IngestState :=
  match files with
  | [] => Some st
  | file_name :: rest =>
      match ingest_file root file_name st with
      | None => None
      | Some st' => ingest_files root rest st'
      end
  end.

(** The loop [for root, _, files in os.walk(DOCS_PATH)]. *)
Fixpoint ingest_walk (dirs : list (string * list string)) (st : IngestState)
    : option IngestState :=
  match dirs with
  | [] => Some st
  | (root, files) :: rest =>
      match ingest_files root files st with
      | None => None
      | Some st' => ingest_walk rest st'
      end
  end.

(** [if points: ... upsert ... else: ...] *)
Definition ingest_upload (st : IngestState) : Result unit * World :=
  match points st with
  | [] => (Ok tt, ing_world st)
  | _ :: _ => client_upsert QDRANT_COLLECTION_NAME (points st) (ing_world st)
  end.

(** Lines 63 to 101: the walk, from [points = []] and
    [point_id_counter = 0]. *)
Definition ingest_collect (w : World) : option IngestState :=
  ingest_walk (os_walk DOCS_PATH) {| points := []; point_id_counter := 0; ing_world := w |}.

(** The set-up is outside any [try]: what it raises ends the run. *)
Definition ingest_book_content (w : World) : option (Result unit * World) :=
  match ingest_ensure_collection w with
  | (Raise e, w) => Some (Raise e, w)
  | (Ok _, w) =>
      match ingest_collect w with
      | None => None
      | Some st => Some (ingest_upload st)
      end
  end.

(** What holds of the state of a run that started in world [w0]: the
    counter is the number of points, point [i] has id [i], every point
    carries a chunk that is not blank, and the run has so far only called
    the embedding service, at least once per point. *)
Definition ingest_inv (w0 : World) (st : IngestState) : Prop :=
  point_id_counter st = Z.of_nat (length (points st)) /\
  map ps_id (points st) = map Z.of_nat (seq 0 (length (points st))) /\
  Forall (fun p => exists chunk,
              ps_payload p !! "text" = Some (PStr chunk) /\ all_space chunk = false)
         (points st) /\
  qdrant_collections (ing_world st) = qdrant_collections w0 /\
  exists evs,
    trace (ing_world st) = trace w0 ++ evs /\
    upserted evs = [] /\
    (length (points st) <= embed_calls evs)%nat.

(** Every chunk of every file that the run reads is blank: [chunk.strip()]
    is empty. *)
Definition blank_corpus : Prop :=
  forall (root : string) (files : list string) (file_name content : string),
    In (root, files) (os_walk DOCS_PATH) ->
    In file_name files ->
    py_endswith file_name ".md" || py_endswith file_name ".mdx" = true ->
    read_text (os_path_join root file_name) = Some content ->
    forall (fuel : nat) (chunks : list string),
      chunk_text fuel content MAX_CHUNK_SIZE OVERLAP_SIZE = Some chunks ->
      Forall (fun c => py_truthy (py_strip c) = false) chunks.

End Ingest.

(** ** auth.py and the auth routes of main.py *)

(** A value of [users_db]: a dict with these three keys. *)
Record UserRecord : Type := {
  hashed_password : string;
  email : string;
  full_name : string
}.

Record UserCreate : Type := {
  uc_username : string;
  uc_email : string;
  uc_password : string
}.

(** The response model [User]. *)
Record User : Type := {
  u_username : string;
  u_email : string;
  u_full_name : option string
}.

(** The claims of a decoded token: [payload.get("sub")] may be [None]. *)
Record TokenPayload : Type := { sub : option string }.

(** passlib and jose: [pwd_hash salt password] is the bcrypt hash under the
    salt drawn, for a password that passlib hashes (it refuses one with a
    NUL character: that request ends with the exception, before the store
    is touched, and is no part of a run of sign-ups here); [jwt_decode
    token] is the payload of a token that verifies and has not expired,
    and [None] otherwise. *)
Class AuthLib : Type := {
  pwd_hash : string -> string -> string;
  jwt_decode : string -> option TokenPayload
}.

Section Auth.
Context `{AuthLib}.

Definition get_password_hash (salt password : string) : string := pwd_hash salt password.

Definition decode_access_token (token : string) : option TokenPayload := jwt_decode token.

Definition signup (salt : string) (user_data : UserCreate) (users_db : gmap string UserRecord)
    : Result User * gmap string UserRecord :=
  match users_db !! uc_username user_data with
  | Some _ => (Raise (HTTPException 400 "Username already registered"), users_db)
  | None =>
      let hashed := get_password_hash salt (uc_password user_data) in
      let users_db' :=
        <[uc_username user_data :=
            {| hashed_password := hashed;
               email := uc_email user_data;
               full_name := uc_username user_data |}]> users_db in
      (Ok {| u_username := uc_username user_data;
             u_email := uc_email user_data;
             u_full_name := Some (uc_username user_data) |},
       users_db')
  end.

Definition read_users_me (token : string) (users_db : gmap string UserRecord) : Result User :=
  match decode_access_token token with
  | None => Raise (HTTPException 401 "Invalid authentication credentials")
  | Some payload =>
      match sub payload with
      | None => Raise (HTTPException 401 "Invalid authentication credentials")
      | Some username =>
          match users_db !! username with
          | None => Raise (HTTPException 401 "Invalid authentication credentials")
          | Some user_data =>
              Ok {| u_username := username;
                    u_email := email user_data;
                    u_full_name := Some (full_name user_data) |}
          end
      end
  end.

(** A run of sign-up requests, each with the salt drawn for it; a refused
    request leaves the store as it is. *)
Fixpoint signups (reqs : list (string * UserCreate)) (users_db : gmap string UserRecord)
    : gmap string UserRecord :=
  match reqs with
  | [] => users_db
  | (salt, user_data) :: rest => signups rest (snd (signup salt user_data users_db))
  end.

End Auth.

(** ** main.py: the /chat route *)

Record ChatRequest : Type := {
  question : string;
  selected_text : option string
}.

Record ChatResponse : Type := { answer : string }.

(** The line break of the Python literals. *)
Definition nl : string := String "010"%char EmptyString.

Definition CHUNK_SEPARATOR : string := nl ++ "---".
Definition SELECTED_LABEL : string := "User selected text for context:" ++ nl.
Definition CHUNKS_LABEL : string := "Relevant document chunks:" ++ nl.

Definition PREAMBLE : string :=
  "You are a helpful assistant specialized in Physical AI & Humanoid Robotics. " ++
  "Answer the user's question based ONLY on the provided context. " ++
  "If the answer cannot be found in the context, state that you don't have enough information."
  ++ nl ++ nl.

(** [if context_text:] holds of a string that is given and not empty. *)
Definition context_truthy (context_text : option string) : bool :=
  match context_text with
  | None => false
  | Some s => py_truthy s
  end.

Definition context_str (context_text : option string) : string :=
  match context_text with
  | None => "None"
  | Some s => s
  end.

(** Step 3 of [chat_with_rag]. *)
Definition combined_context (context_text : option string) (retrieved_chunks : list string)
    : string :=
  if context_truthy context_text then
    (SELECTED_LABEL ++ context_str context_text ++ nl ++ nl ++ CHUNKS_LABEL)
    ++ py_join CHUNK_SEPARATOR retrieved_chunks
  else
    CHUNKS_LABEL ++ py_join CHUNK_SEPARATOR retrieved_chunks.

Definition build_prompt (context_text : option string) (retrieved_chunks : list string)
    (user_query : string) : string :=
  PREAMBLE ++
  ("Context:" ++ nl ++ combined_context context_text retrieved_chunks ++ nl ++ nl) ++
  ("Question: " ++ user_query).

(** Where chunk [i] starts inside [sep.join(chunks)]. *)
Fixpoint chunk_offset (sep : string) (chunks : list string) (i : nat) : nat :=
  match i, chunks with
  | S i', c :: rest => String.length c + String.length sep + chunk_offset sep rest i'
  | _, _ => 0
  end.

(** [part] is found in [whole] at offset [off]. *)
Definition occurs_at (off : nat) (part whole : string) : Prop :=
  substring off (String.length part) whole = part.

(** Where the joined chunks start in a context that shows the selected text
    [X]. *)
Definition chunks_base (X : string) : nat :=
  String.length SELECTED_LABEL + String.length X + 2 + String.length CHUNKS_LABEL.

(** [[result.payload["text"] for result in qdrant_results
      if result.payload and "text" in result.payload]] *)
Fixpoint retrieved_values (qdrant_results : list ScoredPoint) : list PayloadValue :=
  match qdrant_results with
  | [] => []
  | result :: rest =>
      match sp_payload result with
      | Some payload =>
          match payload !! "text" with
          | Some v => v :: retrieved_values rest
          | None => retrieved_values rest
          end
      | None => retrieved_values rest
      end
  end.

(** [str.join] takes strings only; [None]: it raises [TypeError]. *)
Fixpoint as_strings (vs : list PayloadValue) : option (list string) :=
  match vs with
  | [] => Some []
  | PStr s :: rest =>
      match as_strings rest with
      | Some l => Some (s :: l)
      | None => None
      end
  | PInt _ :: _ => None
  end.

(** [str(e)]; the [TypeError] of an [await] reads as CPython words it. *)
Definition exn_str (e : Exn) : string :=
  match e with
  | HTTPException _ detail => detail
  | ServiceError message => message
  | TypeError => "sequence item: expected str instance"
  | AwaitTypeError type_name =>
      "object " +:+ type_name +:+ " can't be used in 'await' expression"
  end.

Section Chat.
Context `{Services}.

Definition call_generate_content (prompt : string) (w : World) : Result string * World :=
  let (r, s) := generate_content_async (llm_svc w) prompt in
  (r, set_llm_svc s (emit (EvGenerateContent prompt) w)).

Definition chat_with_rag (request : ChatRequest) (w : World) : Result ChatResponse * World :=
  match gemini_model w with
  | None => (Raise (HTTPException 500 "Gemini client not initialized."), w)
  | Some model =>
      let (client, w) := get_qdrant_client w in
      if negb (object_truthy client) then
        (Raise (HTTPException 500 "Qdrant client not initialized."), w)
      else
        let user_query := question request in
        let context_text := selected_text request in
        let (query_embedding, w) :=
          generate_embedding user_query DEFAULT_MAX_RETRIES DEFAULT_DELAY w in
        match query_embedding with
        | None => (Raise (HTTPException 500 "Failed to generate query embedding."), w)
        | Some qe =>
            let (client, w) := get_qdrant_client w in
            let (found, w) := client_search QDRANT_COLLECTION_NAME qe 5 w in
            match await_plain "list" found with
            | Raise e =>
                (Raise (HTTPException 500 ("Qdrant search failed: " ++ exn_str e)), w)
            | Ok qdrant_results =>
                match as_strings (retrieved_values qdrant_results) with
                | None => (Raise TypeError, w)
                | Some retrieved_chunks =>
                    let prompt := build_prompt context_text retrieved_chunks user_query in
                    let (response, w) := call_generate_content prompt w in
                    match response with
                    | Ok text => (Ok {| answer := text |}, w)
                    | Raise e =>
                        (Raise (HTTPException 500 ("LLM generation failed: " ++ exn_str e)), w)
                    end
                end
            end
        end
  end.

End Chat.

(** The events a call added to the trace: those of [w'] past those of [w]. *)
Definition new_events `{Services} (w w' : World) : list Event :=
  skipn (length (trace w)) (trace w').

(** ** A scripted environment, to run the model on *)

Module Demo.

(** The embedding service answers from a script, one entry per call, and
    with the zero vector once the script is used up. *)
Definition scripted_embed (script : list EmbedOutcome) (model content task_type : string)
    : EmbedOutcome * list EmbedOutcome :=
  match script with
  | [] => (Embedded [PrimFloat.zero], [])
  | r :: rest => (r, rest)
  end.

Definition demo_walk (path : string) : list (string * list string) :=
  [("docs", ["intro.md"; "notes.txt"; "blank.mdx"])].

Definition demo_read (path : string) : option string :=
  if String.eqb path "docs/intro.md" then Some "Robots sense, plan and act."
  else if String.eqb path "docs/blank.mdx" then Some ("  " +:+ nl +:+ " ")
  else None.

Definition demo_rank (pts : gmap Z PointStruct) (q : Vector) (limit : Z) : list ScoredPoint :=
  map (fun p => {| sp_id := ps_id (snd p); sp_payload := Some (ps_payload (snd p)) |})
      (map_to_list pts).

#[export] Instance demo_services : Services := {|
  EmbedSvc := list EmbedOutcome;
  embed_content := scripted_embed;
  LLMSvc := unit;
  generate_content_async := fun s prompt => (Ok "I don't have enough information.", s);
  search_rank := demo_rank;
  os_walk := demo_walk;
  read_text := demo_read;
  os_path_join := fun root name => root +:+ "/" +:+ name;
  os_path_relpath := fun path start => path;
  DOCS_PATH := "docs";
  QDRANT_HOST := Some "localhost";
  QDRANT_API_KEY := None
|}.

(** A toy token format: the token is the user name. *)
#[export] Instance demo_auth : AuthLib := {|
  pwd_hash := fun salt password => salt +:+ "$" +:+ password;
  jwt_decode := fun token => Some {| sub := Some token |}
|}.

(** The state of a fresh process, with a script for the embedding service. *)
Definition fresh (script : list EmbedOutcome) : World :=
  {| qdrant_client_instance := None; gemini_model := None;
     embed_svc := script; llm_svc := tt;
     qdrant_collections := ∅; trace := [] |}.

(** The LLM handle is set and the Qdrant client is not. *)
Definition llm_only (script : list EmbedOutcome) : World :=
  {| qdrant_client_instance := None;
     gemini_model := Some {| model_name := "gemini-1.5-flash" |};
     embed_svc := script; llm_svc := tt;
     qdrant_collections := ∅; trace := [] |}.

(** A corpus of blank files: one is read, one is not a document, one
    cannot be read. *)
Definition blank_walk (path : string) : list (string * list string) :=
  [("docs", ["blank.mdx"; "notes.txt"; "gone.md"])].

Definition blank_read (path : string) : option string :=
  if String.eqb path "docs/blank.mdx" then Some ("  " +:+ nl +:+ " ")
  else if String.eqb path "docs/notes.txt" then Some "not a document"
  else None.

Definition blank_services : Services := {|
  EmbedSvc := list EmbedOutcome;
  embed_content := scripted_embed;
  LLMSvc := unit;
  generate_content_async := fun s prompt => (Ok "I don't have enough information.", s);
  search_rank := demo_rank;
  os_walk := blank_walk;
  read_text := blank_read;
  os_path_join := fun root name => root +:+ "/" +:+ name;
  os_path_relpath := fun path start => path;
  DOCS_PATH := "docs";
  QDRANT_HOST := Some "localhost";
  QDRANT_API_KEY := None
|}.

Definition blank_fresh : @World blank_services :=
  @Build_World blank_services None None [] tt ∅ [].

(** The LLM handle is set, the Qdrant client is not, and the server holds
    the collection, with one point. *)
Definition stored_point : PointStruct :=
  {| ps_id := 0; ps_vector := [PrimFloat.one];
     ps_payload := <["text" := PStr "Robots sense, plan and act."]> ∅ |}.

Definition llm_only_indexed : World :=
  {| qdrant_client_instance := None;
     gemini_model := Some {| model_name := "gemini-1.5-flash" |};
     embed_svc := []; llm_svc := tt;
     qdrant_collections :=
       <[QDRANT_COLLECTION_NAME :=
           {| vectors_size := 768; col_points := <[0 := stored_point]> ∅ |}]> ∅;
     trace := [] |}.

End Demo.
(** ** auth.py: tokens, log-in and [get_user] *)

Definition ACCESS_TOKEN_EXPIRE_MINUTES : Z := 30.

(** A value of the dict that a token encodes: a string, or a [datetime]. *)
Inductive ClaimValue : Type :=
| CStr (s : string)
| CTime (t : Z).

(** passlib's [verify] and jose's [encode]. *)
Class TokenLib : Type := {
  pwd_verify : string -> string -> bool;
  jwt_encode : gmap string ClaimValue -> string
}.

(** A [datetime] is a number of microseconds since the epoch and a
    [timedelta] a number of microseconds; a [timedelta] is false when it is
    zero. *)
Definition timedelta_minutes (m : Z) : Z := 60000000 * m.

Definition timedelta_truthy (d : option Z) : bool :=
  match d with
  | Some d => negb (d =? 0)
  | None => false
  end.

Record Token : Type := {
  access_token : string;
  token_type : string
}.

(** What the log-in route does: it returns a token, or raises an
    [HTTPException] with a status, a detail and headers. *)
Inductive LoginResult : Type :=
| LoginOk (t : Token)
| LoginRaise (status_code : Z) (detail : string) (headers : list (string * string)).

Record UserInDB : Type := {
  db_username : string;
  db_hashed_password : string;
  db_email : option string;
  db_full_name : option string
}.

Section Login.
Context `{AuthLib} `{TokenLib}.

Definition verify_password (plain_password hashed : string) : bool :=
  pwd_verify plain_password hashed.

Definition create_access_token (utcnow : Z) (data : gmap string ClaimValue)
    (expires_delta : option Z) : string :=
  let to_encode := data in
  let expire :=
    if timedelta_truthy expires_delta
    then utcnow + match expires_delta with Some d => d | None => 0 end
    else utcnow + timedelta_minutes ACCESS_TOKEN_EXPIRE_MINUTES in
  let to_encode := <["exp" := CTime expire]> to_encode in
  jwt_encode to_encode.

Definition incorrect_credentials : LoginResult :=
  LoginRaise 401 "Incorrect username or password" [("WWW-Authenticate", "Bearer")].

(** [if not user or not verify_password(...)]: the password is checked
    only for a user that exists. *)
Definition login_for_access_token (utcnow : Z) (username password : string)
    (users_db : gmap string UserRecord) : LoginResult :=
  match users_db !! username with
  | None => incorrect_credentials
  | Some user =>
      if negb (verify_password password (hashed_password user)) then incorrect_credentials
      else
        let access_token_expires := timedelta_minutes ACCESS_TOKEN_EXPIRE_MINUTES in
        let token :=
          create_access_token utcnow (<["sub" := CStr username]> ∅)
            (Some access_token_expires) in
        LoginOk {| access_token := token; token_type := "bearer" |}
  end.

End Login.

(** [get_user]: a stored dict has its three keys, so it is true. *)
Definition get_user (username : string) (users_db : gmap string UserRecord)
    : option UserInDB :=
  match users_db !! username with
  | Some user_data =>
      Some {| db_username := username;
              db_hashed_password := hashed_password user_data;
              db_email := Some (email user_data);
              db_full_name := Some (full_name user_data) |}
  | None => None
  end.

(** The record that a sign-up request stores. *)
Definition record_of `{AuthLib} (req : string * UserCreate) : UserRecord :=
  {| hashed_password := get_password_hash (fst req) (uc_password (snd req));
     email := uc_email (snd req);
     full_name := uc_username (snd req) |}.

(** The first request of a run that asks for the user name [u]. *)
Definition first_request (u : string) (reqs : list (string * UserCreate))
    : option (string * UserCreate) :=
  List.find (fun req => String.eqb (uc_username (snd req)) u) reqs.

(** ** Counting the calls in a trace *)

Definition is_embed_event (e : Event) : bool :=
  match e with
  | EvEmbedContent _ _ _ | EvSleep _ => true
  | _ => false
  end.

(** The calls that /chat may make. *)
Definition is_chat_event (e : Event) : bool :=
  match e with
  | EvEmbedContent _ _ _ | EvSleep _ | EvSearch _ _ _ | EvGenerateContent _ => true
  | _ => false
  end.

Fixpoint search_calls (evs : list Event) : nat :=
  match evs with
  | [] => 0
  | EvSearch _ _ _ :: rest => S (search_calls rest)
  | _ :: rest => search_calls rest
  end.

Fixpoint llm_calls (evs : list Event) : nat :=
  match evs with
  | [] => 0
  | EvGenerateContent _ :: rest => S (llm_calls rest)
  | _ :: rest => llm_calls rest
  end.

Fixpoint sleep_calls (evs : list Event) : nat :=
  match evs with
  | [] => 0
  | EvSleep _ :: rest => S (sleep_calls rest)
  | _ :: rest => sleep_calls rest
  end.

(** ** The ingestion run, file by file *)

Section IngestViews.
Context `{Services}.

(** The world after a call differs from the world before in the state of
    the embedding service and in the trace, which grows by requests to that
    service and by waits. *)
Definition embed_only_step (w w' : World) : Prop :=
  qdrant_client_instance w' = qdrant_client_instance w /\
  gemini_model w' = gemini_model w /\
  llm_svc w' = llm_svc w /\
  qdrant_collections w' = qdrant_collections w /\
  exists evs, trace w' = trace w ++ evs /\ forallb is_embed_event evs = true.

(** The file is one that the run reads and chunks. *)
Definition is_document (root file_name : string) : bool :=
  (py_endswith file_name ".md" || py_endswith file_name ".mdx")
  && match read_text (os_path_join root file_name) with Some _ => true | None => false end.

(** The payload stored with chunk [i] of the file at [file_path]. *)
Definition chunk_metadata (file_path : string) (i : Z) (chunk : string)
    : gmap string PayloadValue :=
  <["file_path" := PStr (os_path_relpath file_path DOCS_PATH)]>
    (<["chunk_index" := PInt i]> (<["text" := PStr chunk]> ∅)).

(** The point carries chunk number [chunk_index] of a document of the
    tree, a chunk that [chunk.strip()] does not empty. *)
Definition point_from_corpus (dirs : list (string * list string)) (p : PointStruct) : Prop :=
  exists (root : string) (files : list string) (file_name content : string)
         (i : nat) (chunk : string),
    In (root, files) dirs /\
    In file_name files /\
    is_document root file_name = true /\
    read_text (os_path_join root file_name) = Some content /\
    windows content MAX_CHUNK_SIZE OVERLAP_SIZE !! i = Some chunk /\
    py_truthy (py_strip chunk) = true /\
    ps_payload p = chunk_metadata (os_path_join root file_name) (Z.of_nat i) chunk.

End IngestViews.

(** ** A scripted token library *)

Module DemoLogin.

(** The toy hash of [Demo.demo_auth] is the salt, a dollar sign and the
    password; the toy token is the user name. *)
Definition demo_verify (plain hashed : string) : bool :=
  py_endswith hashed ("$" +:+ plain).

Definition demo_encode (claims : gmap string ClaimValue) : string :=
  match claims !! "sub" with
  | Some (CStr s) => s
  | _ => ""
  end.

Definition demo_tokens : TokenLib :=
  {| pwd_verify := demo_verify; jwt_encode := demo_encode |}.

Definition ada : UserCreate :=
  {| uc_username := "ada"; uc_email := "ada@example.org"; uc_password := "pw" |}.

Definition ada_again : UserCreate :=
  {| uc_username := "ada"; uc_email := "other@example.org"; uc_password := "pw2" |}.

End DemoLogin.

(** ** main.py: the start-up half of [lifespan] *)

(** What the start-up finds: the API key of the configuration, whether
    [asyncpg.create_pool] raises, and whether building the Gemini handle
    raises. The pool is never queried; its creation is not in the trace. *)
Class StartupEnv : Type := {
  GEMINI_API_KEY : option string;
  create_pool_raises : bool;
  generative_model_raises : bool
}.

(** The module globals of main.py: [db_pool], beside those of [World]. *)
Record App `{Services} : Type := {
  app_world : World;
  db_pool : option unit
}.

Section Lifespan.
Context `{Services} `{StartupEnv}.

Definition set_gemini_model (m : option GenerativeModel) (w : World) : World :=
  {| qdrant_client_instance := qdrant_client_instance w; gemini_model := m;
     embed_svc := embed_svc w; llm_svc := llm_svc w;
     qdrant_collections := qdrant_collections w; trace := trace w |}.

(** The code of [lifespan] before its [yield]. Each of the three steps
    catches what it raises. *)
Definition lifespan_startup (a : App) : App :=
  let pool := if create_pool_raises then None else Some tt in
  let (initialized, w) := initialize_qdrant_collection (app_world a) in
  let w :=
    if negb (context_truthy GEMINI_API_KEY) then w
    else if generative_model_raises then set_gemini_model None w
    else set_gemini_model (Some {| model_name := "gemini-1.5-flash" |}) w in
  {| app_world := w; db_pool := pool |}.

End Lifespan.

Module DemoStartup.

Definition no_key : StartupEnv :=
  {| GEMINI_API_KEY := None; create_pool_raises := true; generative_model_raises := false |}.

Definition with_key : StartupEnv :=
  {| GEMINI_API_KEY := Some "key"; create_pool_raises := false;
     generative_model_raises := false |}.

Definition fresh_app : @App Demo.demo_services :=
  @Build_App Demo.demo_services (Demo.fresh []) None.

End DemoStartup.

(** * Properties *)

(** ** Strings and slices *)

Lemma substring_length (s : string) : forall n m : nat,
  String.length (substring n m s) = Nat.min m (String.length s - n).
Proof.
  induction s as [|c s IH]; intros [|n] [|m]; simpl; try reflexivity.
  - rewrite IH. simpl. f_equal. f_equal. lia.
  - rewrite IH. reflexivity.
  - rewrite IH. reflexivity.
Qed.

Lemma substring_empty (s : string) : forall n : nat, substring n 0 s = "".
Proof.
  induction s as [|c s IH]; intros [|n]; simpl; auto.
Qed.

Lemma py_len_nonneg (s : string) : 0 <= py_len s.
Proof. unfold py_len. lia. Qed.

Lemma py_truthy_len (s : string) : py_truthy s = true <-> 0 < py_len s.
Proof.
  unfold py_len. destruct s; simpl; split; intros; try lia; try discriminate; auto.
Qed.

(** A slice that starts inside the text and runs forward is the window
    clipped to the end of the text. *)
Lemma py_slice_forward (s : string) (start w : Z) :
  0 <= start < py_len s -> 0 <= w ->
  py_slice s start (start + w) =
  substring (Z.to_nat start) (Z.to_nat (Z.min (start + w) (py_len s) - start)) s.
Proof.
  intros Hs Hw. unfold py_slice, adjust_index.
  destruct (Z.ltb_spec start 0); [lia|].
  destruct (Z.leb_spec (py_len s) start); [lia|].
  destruct (Z.ltb_spec (start + w) 0); [lia|].
  destruct (Z.leb_spec (py_len s) (start + w)).
  - destruct (Z.ltb_spec start (py_len s)); [|lia].
    f_equal. lia.
  - destruct (Z.ltb_spec start (start + w)).
    + f_equal. lia.
    + replace (Z.to_nat (Z.min (start + w) (py_len s) - start)) with 0%nat by lia.
      symmetry. apply substring_empty.
Qed.

(** ** The chunker *)

Lemma ceil_div_lt (a b k : Z) : 0 < b -> k < ceil_div a b <-> k * b < a.
Proof.
  intros Hb. unfold ceil_div.
  pose proof (Z.div_mod (a + b - 1) b ltac:(lia)) as Hd.
  pose proof (Z.mod_pos_bound (a + b - 1) b Hb) as Hm.
  split; intros Hk; nia.
Qed.

Lemma chunk_count_lt (L W O : Z) (k : nat) :
  O < W -> (k < chunk_count L W O)%nat <-> window_start W O k < L.
Proof.
  intros H. unfold chunk_count, window_start.
  rewrite <- (ceil_div_lt L (W - O) (Z.of_nat k)) by lia. lia.
Qed.

(** The loop, entered at the start of window [k] with [m] windows to go. *)
Lemma chunk_loop_windows (text : string) (W O : Z) :
  O < W ->
  forall (m k : nat) (acc : list string) (fuel : nat),
    (k + m = chunk_count (py_len text) W O)%nat ->
    chunk_loop fuel text W O (window_start W O k) acc =
    if (m <? fuel)%nat
    then Some (acc ++ map (fun i => py_slice text (window_start W O i) (window_start W O i + W))
                          (seq k m))
    else None.
Proof.
  intros HOW. induction m as [|m IH]; intros k acc fuel Hk.
  - destruct fuel as [|fuel]; simpl; [reflexivity|].
    destruct (Z.ltb_spec (window_start W O k) (py_len text)) as [Hlt|Hge].
    + apply chunk_count_lt in Hlt; [lia|assumption].
    + now rewrite app_nil_r.
  - destruct fuel as [|fuel]; [reflexivity|].
    cbn [chunk_loop].
    destruct (Z.ltb_spec (window_start W O k) (py_len text)) as [Hlt|Hge].
    + replace (window_start W O k + (W - O)) with (window_start W O (S k))
        by (unfold window_start; lia).
      rewrite IH by lia.
      change (S m <? S fuel)%nat with (m <? fuel)%nat.
      destruct (m <? fuel)%nat; [|reflexivity].
      simpl. now rewrite <- app_assoc.
    + exfalso. assert (k < chunk_count (py_len text) W O)%nat as Hc by lia.
      apply chunk_count_lt in Hc; [lia|assumption].
Qed.

(** With a step that is positive, the call returns the windows, once the
    fuel covers one loop test per window and the closing one. *)
Lemma chunk_text_fuel (text : string) (W O : Z) (fuel : nat) :
  py_truthy text = true -> O < W ->
  chunk_text fuel text W O =
  if (chunk_count (py_len text) W O <? fuel)%nat
  then Some (map (fun i => py_slice text (window_start W O i) (window_start W O i + W))
                 (seq 0 (chunk_count (py_len text) W O)))
  else None.
Proof.
  intros Ht HOW. unfold chunk_text. rewrite Ht. simpl negb. cbv iota.
  change 0 with (window_start W O 0).
  now rewrite (chunk_loop_windows text W O HOW (chunk_count (py_len text) W O) 0 []).
Qed.

Lemma window_start_nonneg (W O : Z) (i : nat) : O < W -> 0 <= window_start W O i.
Proof. intros. unfold window_start. apply Z.mul_nonneg_nonneg; lia. Qed.

Lemma slices_are_windows (text : string) (W O : Z) :
  0 <= W -> O < W ->
  map (fun i => py_slice text (window_start W O i) (window_start W O i + W))
      (seq 0 (chunk_count (py_len text) W O)) = windows text W O.
Proof.
  intros HW HOW. unfold windows. apply map_ext_in. intros i Hi.
  apply in_seq in Hi. unfold window, window_stop.
  apply py_slice_forward; [|assumption].
  split; [now apply window_start_nonneg|].
  apply chunk_count_lt; [assumption|lia].
Qed.

Lemma windows_length (text : string) (W O : Z) :
  length (windows text W O) = chunk_count (py_len text) W O.
Proof. unfold windows. now rewrite length_map, length_seq. Qed.

Lemma windows_lookup (text : string) (W O : Z) (i : nat) :
  (i < chunk_count (py_len text) W O)%nat ->
  windows text W O !! i = Some (window text W O i).
Proof.
  intros Hi. unfold windows. rewrite list_lookup_fmap.
  rewrite lookup_seq_lt by assumption. reflexivity.
Qed.

Lemma window_len (text : string) (W O : Z) (i : nat) :
  0 <= W -> O < W -> (i < chunk_count (py_len text) W O)%nat ->
  py_len (window text W O i) = window_stop (py_len text) W O i - window_start W O i.
Proof.
  intros HW HOW Hi. apply chunk_count_lt in Hi; [|assumption].
  pose proof (window_start_nonneg W O i HOW).
  unfold py_len in *. unfold window. rewrite substring_length.
  unfold window_stop, py_len in *. lia.
Qed.

Lemma window_get (text : string) (W O : Z) (i : nat) (j : Z) :
  O < W -> window_start W O i <= j < window_stop (py_len text) W O i ->
  String.get (Z.to_nat (j - window_start W O i)) (window text W O i) =
  String.get (Z.to_nat j) text.
Proof.
  intros HOW Hj. pose proof (window_start_nonneg W O i HOW).
  unfold window. rewrite substring_correct1 by lia. f_equal. lia.
Qed.

Lemma windows_cover (text : string) (W O : Z) (j : Z) :
  0 <= O < W -> 0 <= j < py_len text -> covered W O (windows text W O) j.
Proof.
  intros HOW Hj.
  pose proof (Z.div_mod j (W - O) ltac:(lia)) as Hd.
  pose proof (Z.mod_pos_bound j (W - O) ltac:(lia)) as Hm.
  assert (0 <= j / (W - O)) as Hq by (apply Z.div_pos; lia).
  set (i := Z.to_nat (j / (W - O))).
  assert (window_start W O i <= j < window_start W O i + (W - O)) as Hi
    by (unfold window_start, i; rewrite Z2Nat.id by assumption; lia).
  assert (i < chunk_count (py_len text) W O)%nat as Hc
    by (apply chunk_count_lt; lia).
  exists i, (window text W O i). split; [now apply windows_lookup|].
  rewrite window_len by (assumption || lia).
  unfold window_stop. lia.
Qed.

(** With an overlap that is not below the size, the start never moves
    forward, and the loop test never fails. *)
Lemma chunk_loop_stuck (text : string) (W O : Z) :
  0 < py_len text -> W <= O ->
  forall (fuel : nat) (start : Z) (acc : list string),
    start <= 0 -> chunk_loop fuel text W O start acc = None.
Proof.
  intros HL HWO. induction fuel as [|fuel IH]; intros start acc Hs; [reflexivity|].
  simpl. destruct (Z.ltb_spec start (py_len text)); [|lia].
  apply IH. lia.
Qed.

Lemma chunk_text_stuck (text : string) (W O : Z) :
  py_truthy text = true -> W <= O -> chunk_text_diverges text W O.
Proof.
  intros Ht HWO fuel. unfold chunk_text. rewrite Ht. simpl.
  apply chunk_loop_stuck; [now apply py_truthy_len|assumption|lia].
Qed.

Lemma chunk_text_empty (fuel : nat) (W O : Z) : chunk_text fuel "" W O = Some [].
Proof. reflexivity. Qed.

Example chunk_text_example :
  chunk_text 5 "abcdefghij" 4 1 = Some ["abcd"; "defg"; "ghij"; "j"].
Proof. reflexivity. Qed.

Example chunk_text_out_of_fuel : chunk_text 4 "abcdefghij" 4 1 = None.
Proof. reflexivity. Qed.

Example chunk_text_negative_size :
  chunk_text 5 "abcd" (-1) (-2) = Some ["abc"; ""; ""; ""].
Proof. reflexivity. Qed.

Lemma py_truthy_nonempty (s : string) : s <> "" -> py_truthy s = true.
Proof. destruct s; [congruence|reflexivity]. Qed.

(** C1 (amended): for parameters with [0 <= O < W], [chunk_text] returns
    the empty list on the empty text and, on a text of length [L > 0], the
    list whose entry [i] is the substring that starts at [i * (W - O)] and
    covers [[i * (W - O), i * (W - O) + W)] clipped to [L]. It returns after
    exactly one loop test per chunk and one more; each chunk has at most [W]
    characters; every index below [L] lies in some chunk; and whatever fuel
    lets the call return yields the same list. *)
Theorem chunk_text_windows_cover (W O : Z) :
  0 <= O < W ->
  (forall fuel, chunk_text fuel "" W O = Some []) /\
  forall text : string, text <> "" ->
    let L := py_len text in
    let n := chunk_count L W O in
    (forall fuel,
        chunk_text fuel text W O =
        if (n <? fuel)%nat then Some (windows text W O) else None) /\
    length (windows text W O) = n /\
    (forall i : nat, (i < n)%nat ->
        windows text W O !! i = Some (window text W O i) /\
        py_len (window text W O i) = window_stop L W O i - window_start W O i /\
        py_len (window text W O i) <= W /\
        forall j, window_start W O i <= j < window_stop L W O i ->
          String.get (Z.to_nat (j - window_start W O i)) (window text W O i) =
          String.get (Z.to_nat j) text) /\
    (forall j, 0 <= j < L -> covered W O (windows text W O) j) /\
    (forall fuel1 fuel2 r1 r2,
        chunk_text fuel1 text W O = Some r1 ->
        chunk_text fuel2 text W O = Some r2 -> r1 = r2).
Proof.
  intros HOW. split; [intros; apply chunk_text_empty|].
  intros text Ht L n. apply py_truthy_nonempty in Ht.
  assert (forall fuel, chunk_text fuel text W O =
            if (n <? fuel)%nat then Some (windows text W O) else None) as Hrun.
  { intros fuel. rewrite chunk_text_fuel by (assumption || lia).
    rewrite slices_are_windows by lia. reflexivity. }
  split; [exact Hrun|].
  split; [apply windows_length|].
  split.
  - intros i Hi. split; [now apply windows_lookup|].
    pose proof (window_len text W O i ltac:(lia) ltac:(lia) Hi) as Hlen.
    split; [exact Hlen|]. split.
    + rewrite Hlen. unfold window_stop. lia.
    + intros j Hj. apply window_get; [lia|exact Hj].
  - split.
    + intros j Hj. now apply windows_cover.
    + intros fuel1 fuel2 r1 r2 H1 H2. rewrite Hrun in H1, H2.
      destruct (n <? fuel1)%nat; [|discriminate].
      destruct (n <? fuel2)%nat; [|discriminate]. congruence.
Qed.

Lemma chunk_text_windows_cover_witness :
  chunk_text 5 "abcdefghij" 4 1 = Some (windows "abcdefghij" 4 1) /\
  covered 4 1 (windows "abcdefghij" 4 1) 9.
Proof.
  destruct (chunk_text_windows_cover 4 1 ltac:(lia)) as [_ Hw].
  destruct (Hw "abcdefghij" ltac:(discriminate)) as (Hrun & _ & _ & Hcov & _).
  split; [exact (Hrun 5%nat)|apply Hcov; vm_compute; split; congruence].
Defined.

(** With a negative overlap the step exceeds the window, and the windows
    leave gaps: [O < W] alone does not give coverage. *)
Lemma chunk_text_negative_overlap_gap :
  -1 < 2 /\
  chunk_text 5 "abc" 2 (-1) = Some ["ab"] /\
  0 <= 2 < py_len "abc" /\
  ~ covered 2 (-1) ["ab"] 2.
Proof.
  split; [lia|]. split; [reflexivity|]. split; [vm_compute; split; congruence|].
  intros (i & c & Hc & Hj).
  destruct i as [|i]; simpl in Hc.
  - inversion Hc; subst c. vm_compute in Hj. destruct Hj as [_ Hj]. discriminate Hj.
  - destruct i; discriminate.
Qed.

(** C3 (amended): for a text of length [L > 0] and [O < W], the call
    returns, and the number of chunks is [ceil(L / (W - O))]; exactly one
    chunk is returned when, and only when, [L <= W - O]. *)
Theorem chunk_text_count (text : string) (W O : Z) :
  text <> "" -> O < W ->
  (exists chunks, chunk_text (S (chunk_count (py_len text) W O)) text W O = Some chunks) /\
  forall fuel chunks,
    chunk_text fuel text W O = Some chunks ->
    Z.of_nat (length chunks) = ceil_div (py_len text) (W - O) /\
    (length chunks = 1%nat <-> py_len text <= W - O).
Proof.
  intros Ht HOW. apply py_truthy_nonempty in Ht.
  pose proof (chunk_text_fuel text W O) as Hrun.
  split.
  - eexists. rewrite Hrun by assumption.
    rewrite (proj2 (Nat.ltb_lt _ _)) by lia. reflexivity.
  - intros fuel chunks Hc. rewrite Hrun in Hc by assumption.
    destruct (_ <? fuel)%nat; [|discriminate].
    inversion Hc; subst chunks; clear Hc.
    rewrite length_map, length_seq.
    apply py_truthy_len in Ht.
    pose proof (proj2 (ceil_div_lt (py_len text) (W - O) 0 ltac:(lia)) ltac:(lia)) as Hpos.
    assert (Z.of_nat (chunk_count (py_len text) W O) = ceil_div (py_len text) (W - O)) as Hn
      by (unfold chunk_count; lia).
    split; [exact Hn|].
    pose proof (ceil_div_lt (py_len text) (W - O) 1 ltac:(lia)) as H1.
    lia.
Qed.

Lemma chunk_text_count_witness :
  Z.of_nat (length ["ab"; "b"]) = ceil_div (py_len "ab") (2 - 1).
Proof.
  destruct (chunk_text_count "ab" 2 1 ltac:(discriminate) ltac:(lia)) as [_ H].
  exact (proj1 (H 3%nat ["ab"; "b"] eq_refl)).
Defined.

(** The stated count [ceil(max(L - O, 1) / (W - O))] is one for the text
    ["ab"] with [W = 2] and [O = 1], where [L <= W]; the call returns two
    chunks. *)
Lemma chunk_text_count_differs :
  chunk_text 3 "ab" 2 1 = Some ["ab"; "b"] /\
  py_len "ab" <= 2 /\
  spec_chunk_count (py_len "ab") 2 1 = 1 /\
  Z.of_nat (length ["ab"; "b"]) <> spec_chunk_count (py_len "ab") 2 1.
Proof. vm_compute. repeat split; congruence. Qed.

(** C4 (amended): [chunk_text] checks neither parameter. On the empty text
    it returns the empty list whatever [W] and [O] are; on a text that is
    not empty it returns, after finitely many steps, when [O < W], and it
    never returns, nor raises, when [O >= W]. *)
Theorem chunk_text_terminates_iff (text : string) (W O : Z) :
  (text = "" -> forall fuel, chunk_text fuel text W O = Some []) /\
  (text <> "" -> O < W ->
     exists chunks, forall fuel,
       (chunk_count (py_len text) W O < fuel)%nat ->
       chunk_text fuel text W O = Some chunks) /\
  (text <> "" -> W <= O -> chunk_text_diverges text W O).
Proof.
  split; [intros -> fuel; apply chunk_text_empty|]. split.
  - intros Ht HOW. apply py_truthy_nonempty in Ht. eexists. intros fuel Hf.
    rewrite chunk_text_fuel by assumption.
    rewrite (proj2 (Nat.ltb_lt _ _)) by exact Hf. reflexivity.
  - intros Ht HWO. apply chunk_text_stuck; [now apply py_truthy_nonempty|assumption].
Qed.

Lemma chunk_text_terminates_iff_witness :
  chunk_text_diverges "a" 2 3 /\
  exists chunks, forall fuel,
    (chunk_count (py_len "abc") 2 1 < fuel)%nat -> chunk_text fuel "abc" 2 1 = Some chunks.
Proof.
  split.
  - apply (proj2 (proj2 (chunk_text_terminates_iff "a" 2 3))); [discriminate|lia].
  - apply (proj1 (proj2 (chunk_text_terminates_iff "abc" 2 1))); [discriminate|lia].
Defined.

(** A call with [O = W] on a text that is not empty is not rejected: it
    loops. *)
Lemma chunk_text_equal_overlap_loops :
  1 <= 1 /\ chunk_text 1000 "a" 1 1 = None /\ chunk_text_diverges "a" 1 1.
Proof.
  split; [lia|]. split; [reflexivity|].
  apply chunk_text_stuck; [reflexivity|lia].
Qed.

(** ** The embedder *)

Section EmbedderProps.
Context `{Services}.

Lemma new_events_app (w w' : World) (evs : list Event) :
  trace w' = trace w ++ evs -> new_events w w' = evs.
Proof. intros Ht. unfold new_events. rewrite Ht. apply drop_app_length. Qed.

Lemma embed_calls_app (a b : list Event) :
  embed_calls (a ++ b) = (embed_calls a + embed_calls b)%nat.
Proof.
  induction a as [|e a IH]; [reflexivity|].
  destruct e; simpl; rewrite IH; reflexivity.
Qed.

Lemma call_embed_content_trace (text : string) (w : World) :
  trace (snd (call_embed_content text w)) = trace w ++ final_attempt text.
Proof.
  unfold call_embed_content. destruct (embed_content _ _ _ _). reflexivity.
Qed.

Lemma call_embed_content_outcome (text : string) (w : World) :
  fst (call_embed_content text w) =
  fst (embed_content (embed_svc w) EMBEDDING_MODEL text "retrieval_document") /\
  embed_svc (snd (call_embed_content text w)) =
  snd (embed_content (embed_svc w) EMBEDDING_MODEL text "retrieval_document").
Proof.
  unfold call_embed_content. destruct (embed_content _ _ _ _). split; reflexivity.
Qed.

(** Every run of the loop makes at most [n] requests, and extends the
    trace. *)
Lemma embedding_attempts_bounded (text : string) (delay : Z) :
  forall (n : nat) (w : World),
    exists evs,
      trace (snd (embedding_attempts n text delay w)) = trace w ++ evs /\
      (embed_calls evs <= n)%nat.
Proof.
  induction n as [|n IH]; intros w; simpl.
  - exists []. now rewrite app_nil_r.
  - pose proof (call_embed_content_trace text w) as Ht.
    destruct (call_embed_content text w) as [r w1]. simpl in Ht.
    destruct r.
    + exists (final_attempt text). split; [exact Ht|simpl; lia].
    + destruct (IH (emit (EvSleep delay) w1)) as (evs & He & Hn).
      exists (limited_attempt text delay ++ evs). split.
      * rewrite He. simpl. rewrite Ht. unfold limited_attempt, final_attempt.
        now rewrite <- !app_assoc.
      * rewrite embed_calls_app. simpl. lia.
    + exists (final_attempt text). split; [exact Ht|simpl; lia].
Qed.

(** [k] attempts in a row that meet the rate limit, then the answer [r]. *)
Lemma embedding_attempts_after_limited (text : string) (delay : Z) :
  forall (k n : nat) (w : World) (r : EmbedOutcome),
    (k < n)%nat ->
    svc_outcomes (S k) text (embed_svc w) = replicate k ResourceExhausted ++ [r] ->
    r <> ResourceExhausted ->
    fst (embedding_attempts n text delay w) =
      match r with Embedded v => Some v | _ => None end /\
    trace (snd (embedding_attempts n text delay w)) =
      trace w ++ concat (replicate k (limited_attempt text delay)) ++ final_attempt text.
Proof.
  induction k as [|k IH]; intros n w r Hk Hos Hr.
  - destruct n as [|n]; [lia|]. simpl in *.
    pose proof (call_embed_content_trace text w) as Ht.
    pose proof (call_embed_content_outcome text w) as [Ho _].
    destruct (call_embed_content text w) as [r' w1]. simpl in *.
    destruct (embed_content _ _ _ _) as [r0 s0]. simpl in *.
    inversion Hos; subst.
    destruct r; try congruence; split; auto.
  - destruct n as [|n]; [lia|].
    cbn [embedding_attempts].
    pose proof (call_embed_content_trace text w) as Ht.
    pose proof (call_embed_content_outcome text w) as [Ho Hs].
    destruct (call_embed_content text w) as [r' w1]. simpl in Ht, Ho, Hs.
    change (svc_outcomes (S (S k)) text (embed_svc w)) with
      (let (r0, s') := embed_content (embed_svc w) EMBEDDING_MODEL text "retrieval_document" in
       r0 :: svc_outcomes (S k) text s') in Hos.
    destruct (embed_content _ _ _ _) as [r0 s0]. simpl in Ho, Hs. subst r' s0.
    rewrite replicate_S in Hos. simpl in Hos.
    injection Hos as -> Hos.
    destruct (IH n (emit (EvSleep delay) w1) r ltac:(lia) Hos Hr) as [Hres Htr].
    split; [exact Hres|].
    rewrite Htr. simpl. rewrite Ht. unfold limited_attempt, final_attempt.
    now rewrite <- !app_assoc.
Qed.

(** Nothing but rate limits, [n] times. *)
Lemma embedding_attempts_exhausted (text : string) (delay : Z) :
  forall (n : nat) (w : World),
    svc_outcomes n text (embed_svc w) = replicate n ResourceExhausted ->
    fst (embedding_attempts n text delay w) = None /\
    trace (snd (embedding_attempts n text delay w)) =
      trace w ++ concat (replicate n (limited_attempt text delay)).
Proof.
  induction n as [|n IH]; intros w Hos.
  - simpl. now rewrite app_nil_r.
  - cbn [embedding_attempts].
    pose proof (call_embed_content_trace text w) as Ht.
    pose proof (call_embed_content_outcome text w) as [Ho Hs].
    destruct (call_embed_content text w) as [r' w1]. simpl in Ht, Ho, Hs.
    simpl in Hos.
    destruct (embed_content _ _ _ _) as [r0 s0]. simpl in Ho, Hs. subst r' s0.
    injection Hos as -> Hos.
    destruct (IH (emit (EvSleep delay) w1) Hos) as [Hres Htr].
    split; [exact Hres|].
    rewrite Htr. simpl. rewrite Ht. unfold limited_attempt, final_attempt.
    now rewrite <- !app_assoc.
Qed.

(** What the service can answer to the attempts of one call: some rate
    limits and then something else, or rate limits throughout. *)
Lemma svc_outcomes_cases (text : string) :
  forall (n : nat) (s : EmbedSvc),
    (exists (k : nat) (r : EmbedOutcome),
        (k < n)%nat /\ r <> ResourceExhausted /\
        svc_outcomes (S k) text s = replicate k ResourceExhausted ++ [r]) \/
    svc_outcomes n text s = replicate n ResourceExhausted.
Proof.
  induction n as [|n IH]; intros s; [now right|].
  destruct (embed_content s EMBEDDING_MODEL text "retrieval_document") as [r0 s0] eqn:He.
  assert (forall m, svc_outcomes (S m) text s = r0 :: svc_outcomes m text s0) as Hstep
    by (intros m; simpl; now rewrite He).
  destruct r0 as [v| |].
  - left. exists 0%nat, (Embedded v). rewrite Hstep.
    split; [lia|]. split; [discriminate|reflexivity].
  - destruct (IH s0) as [(k & r & Hk & Hr & Hos)|Hall].
    + left. exists (S k), r. split; [lia|]. split; [exact Hr|].
      rewrite Hstep, Hos. reflexivity.
    + right. rewrite Hstep, Hall. reflexivity.
  - left. exists 0%nat, OtherException. rewrite Hstep.
    split; [lia|]. split; [discriminate|reflexivity].
Qed.

(** C2: [generate_embedding] makes at most [max_retries] requests (five by
    default). An attempt that meets the rate limit is followed by a wait of
    [delay] (five by default) and, while attempts are left, by another
    attempt; an attempt that returns ends the call with the embedding; an
    attempt that raises anything else ends the call with [None], with no
    wait and no further request; and [max_retries] rate limits in a row end
    the call with [None]. These cases are all there are: the call always
    returns, with an embedding or with [None]. *)
Theorem generate_embedding_retry_policy (text : string) (max_retries delay : Z) (w : World) :
  let n := Z.to_nat max_retries in
  let run := generate_embedding text max_retries delay w in
  (exists evs, trace (snd run) = trace w ++ evs /\ (embed_calls evs <= n)%nat) /\
  (forall (k : nat) (v : Vector),
      (k < n)%nat ->
      svc_outcomes (S k) text (embed_svc w) = replicate k ResourceExhausted ++ [Embedded v] ->
      fst run = Some v /\
      new_events w (snd run) =
        concat (replicate k (limited_attempt text delay)) ++ final_attempt text) /\
  (forall k : nat,
      (k < n)%nat ->
      svc_outcomes (S k) text (embed_svc w) = replicate k ResourceExhausted ++ [OtherException] ->
      fst run = None /\
      new_events w (snd run) =
        concat (replicate k (limited_attempt text delay)) ++ final_attempt text) /\
  (svc_outcomes n text (embed_svc w) = replicate n ResourceExhausted ->
      fst run = None /\
      new_events w (snd run) = concat (replicate n (limited_attempt text delay))) /\
  ((exists (k : nat) (r : EmbedOutcome),
       (k < n)%nat /\ r <> ResourceExhausted /\
       svc_outcomes (S k) text (embed_svc w) = replicate k ResourceExhausted ++ [r]) \/
   svc_outcomes n text (embed_svc w) = replicate n ResourceExhausted) /\
  DEFAULT_MAX_RETRIES = 5 /\ DEFAULT_DELAY = 5.
Proof.
  intros n run. unfold run, generate_embedding. fold n.
  split; [apply embedding_attempts_bounded|].
  split.
  { intros k v Hk Hos.
    destruct (embedding_attempts_after_limited text delay k n w (Embedded v) Hk Hos
                ltac:(discriminate)) as [Hr Ht].
    split; [exact Hr|now apply new_events_app]. }
  split.
  { intros k Hk Hos.
    destruct (embedding_attempts_after_limited text delay k n w OtherException Hk Hos
                ltac:(discriminate)) as [Hr Ht].
    split; [exact Hr|now apply new_events_app]. }
  split; [|split; [apply svc_outcomes_cases|split; reflexivity]].
  intros Hos.
  destruct (embedding_attempts_exhausted text delay n w Hos) as [Hr Ht].
  split; [exact Hr|now apply new_events_app].
Qed.

End EmbedderProps.

Lemma generate_embedding_retry_policy_witness :
  fst (generate_embedding "hello" 5 5
         (Demo.fresh [ResourceExhausted; ResourceExhausted; Embedded [PrimFloat.one]]))
    = Some [PrimFloat.one] /\
  fst (generate_embedding "hello" 5 5
         (Demo.fresh [ResourceExhausted; OtherException; Embedded [PrimFloat.one]]))
    = None /\
  fst (generate_embedding "hello" 5 5
         (Demo.fresh (replicate 5 ResourceExhausted ++ [Embedded [PrimFloat.one]])))
    = None.
Proof.
  split; [|split].
  - pose proof (generate_embedding_retry_policy "hello" 5 5
        (Demo.fresh [ResourceExhausted; ResourceExhausted; Embedded [PrimFloat.one]])) as Hp.
    destruct Hp as (_ & Hok & _).
    apply (Hok 2%nat [PrimFloat.one]); [vm_compute; lia|reflexivity].
  - pose proof (generate_embedding_retry_policy "hello" 5 5
        (Demo.fresh [ResourceExhausted; OtherException; Embedded [PrimFloat.one]])) as Hp.
    destruct Hp as (_ & _ & Hother & _).
    apply (Hother 1%nat); [vm_compute; lia|reflexivity].
  - pose proof (generate_embedding_retry_policy "hello" 5 5
        (Demo.fresh (replicate 5 ResourceExhausted ++ [Embedded [PrimFloat.one]]))) as Hp.
    destruct Hp as (_ & _ & _ & Hex & _).
    apply Hex. reflexivity.
Defined.

(** ** The ingestion run *)

Lemma lstrip_all_space (s : string) : all_space s = true -> py_lstrip s = "".
Proof.
  induction s as [|c s IH]; simpl; [reflexivity|].
  destruct (is_space c); simpl; [exact IH|discriminate].
Qed.

Lemma lstrip_blank (s : string) : all_space (py_lstrip s) = true -> all_space s = true.
Proof.
  induction s as [|c s IH]; simpl; [reflexivity|].
  destruct (is_space c) eqn:Hc; simpl; [exact IH|].
  rewrite Hc. discriminate.
Qed.

Lemma rstrip_blank (s : string) : py_rstrip s = "" -> all_space s = true.
Proof.
  induction s as [|c s IH]; simpl; [reflexivity|].
  destruct (is_space c); simpl; [|discriminate].
  destruct (py_rstrip s); simpl; [auto|discriminate].
Qed.

(** The test [not chunk.strip()] holds of the blank chunks, and of them
    only. *)
Lemma strip_blank (s : string) : py_truthy (py_strip s) = false <-> all_space s = true.
Proof.
  unfold py_strip. split.
  - intros Hs. apply lstrip_blank, rstrip_blank.
    destruct (py_rstrip (py_lstrip s)); [reflexivity|discriminate].
  - intros Hs. now rewrite lstrip_all_space.
Qed.

Lemma upserted_app (a b : list Event) : upserted (a ++ b) = upserted a ++ upserted b.
Proof.
  induction a as [|e a IH]; [reflexivity|].
  destruct e; simpl; rewrite IH; reflexivity.
Qed.

(** The default parameters let the chunker return on every text. *)
Lemma chunk_text_default (content : string) :
  chunk_text (S (String.length content)) content MAX_CHUNK_SIZE OVERLAP_SIZE =
  Some (windows content MAX_CHUNK_SIZE OVERLAP_SIZE).
Proof.
  destruct (py_truthy content) eqn:Ht; [|destruct content; [reflexivity|discriminate]].
  rewrite chunk_text_fuel by (assumption || (unfold MAX_CHUNK_SIZE, OVERLAP_SIZE; lia)).
  rewrite slices_are_windows by (unfold MAX_CHUNK_SIZE, OVERLAP_SIZE; lia).
  assert (chunk_count (py_len content) MAX_CHUNK_SIZE OVERLAP_SIZE <= String.length content)%nat
    as Hle.
  { unfold chunk_count.
    pose proof (ceil_div_lt (py_len content) (MAX_CHUNK_SIZE - OVERLAP_SIZE) (py_len content)
                  ltac:(unfold MAX_CHUNK_SIZE, OVERLAP_SIZE; lia)) as Hl.
    unfold py_len, MAX_CHUNK_SIZE, OVERLAP_SIZE in *. lia. }
  rewrite (proj2 (Nat.ltb_lt _ _)) by lia. reflexivity.
Qed.

Section IngestProps.
Context `{Services}.

Lemma call_embed_content_collections (text : string) (w : World) :
  qdrant_collections (snd (call_embed_content text w)) = qdrant_collections w.
Proof. unfold call_embed_content. destruct (embed_content _ _ _ _). reflexivity. Qed.

(** The embedder touches the embedding service only; an embedding costs at
    least one request. *)
Lemma embedding_attempts_effects (text : string) (delay : Z) :
  forall (n : nat) (w : World),
    qdrant_collections (snd (embedding_attempts n text delay w)) = qdrant_collections w /\
    exists evs,
      trace (snd (embedding_attempts n text delay w)) = trace w ++ evs /\
      upserted evs = [] /\
      (is_Some (fst (embedding_attempts n text delay w)) -> (1 <= embed_calls evs)%nat).
Proof.
  induction n as [|n IH]; intros w; simpl.
  - split; [reflexivity|]. exists []. rewrite app_nil_r.
    split; [reflexivity|]. split; [reflexivity|]. intros [v Hv]. discriminate.
  - pose proof (call_embed_content_trace text w) as Ht.
    pose proof (call_embed_content_collections text w) as Hq.
    destruct (call_embed_content text w) as [r w1]. simpl in Ht, Hq.
    destruct r.
    + split; [exact Hq|]. exists (final_attempt text).
      split; [exact Ht|]. split; [reflexivity|]. simpl. lia.
    + destruct (IH (emit (EvSleep delay) w1)) as (Hc & evs & He & Hu & Hn).
      split; [now rewrite Hc|].
      exists (limited_attempt text delay ++ evs). split; [|split].
      * rewrite He. simpl. rewrite Ht. unfold limited_attempt, final_attempt.
        now rewrite <- !app_assoc.
      * rewrite upserted_app, Hu. reflexivity.
      * intros Hs. rewrite embed_calls_app. simpl. lia.
    + split; [exact Hq|]. exists (final_attempt text).
      split; [exact Ht|]. split; [reflexivity|]. simpl. lia.
Qed.

Lemma ingest_chunk_inv (w0 : World) (file_path : string) (i : Z) (chunk : string)
    (st : IngestState) :
  ingest_inv w0 st -> ingest_inv w0 (ingest_chunk file_path i chunk st).
Proof.
  intros (Hcnt & Hids & Htxt & Hcol & evs & Htr & Hup & Hlen).
  unfold ingest_chunk.
  destruct (py_truthy (py_strip chunk)) eqn:Hblank; simpl;
    [|repeat split; eauto].
  assert (all_space chunk = false) as Hns.
  { destruct (all_space chunk) eqn:Ha; [|reflexivity].
    apply strip_blank in Ha. congruence. }
  unfold generate_embedding.
  destruct (embedding_attempts_effects chunk DEFAULT_DELAY
              (Z.to_nat DEFAULT_MAX_RETRIES) (ing_world st)) as (Hc' & evs' & Ht' & Hu' & Hn').
  destruct (embedding_attempts _ chunk _ _) as [[v|] w1]; simpl in *.
  - unfold ingest_inv. simpl. rewrite length_app. simpl.
    split; [lia|]. split; [|split; [|split]].
    + rewrite map_app, Hids. simpl.
      replace (length (points st) + 1)%nat with (S (length (points st))) by lia.
      rewrite seq_S, map_app. simpl. now rewrite Hcnt.
    + apply Forall_app. split; [exact Htxt|].
      constructor; [|constructor]. exists chunk. simpl. split; [|exact Hns].
      rewrite lookup_insert_ne by discriminate.
      rewrite lookup_insert_ne by discriminate.
      apply lookup_insert_eq.
    + congruence.
    + exists (evs ++ evs'). split; [|split].
      * rewrite Ht', Htr. now rewrite <- app_assoc.
      * rewrite upserted_app, Hup, Hu'. reflexivity.
      * rewrite embed_calls_app. specialize (Hn' ltac:(eauto)). lia.
  - unfold ingest_inv. simpl.
    split; [exact Hcnt|]. split; [exact Hids|]. split; [exact Htxt|].
    split; [congruence|].
    exists (evs ++ evs'). split; [|split].
    + rewrite Ht', Htr. now rewrite <- app_assoc.
    + rewrite upserted_app, Hup, Hu'. reflexivity.
    + rewrite embed_calls_app. lia.
Qed.

Lemma ingest_chunks_inv (w0 : World) (file_path : string) :
  forall (chunks : list string) (i : Z) (st : IngestState),
    ingest_inv w0 st -> ingest_inv w0 (ingest_chunks file_path i chunks st).
Proof.
  induction chunks as [|c chunks IH]; intros i st Hinv; simpl; [exact Hinv|].
  apply IH. now apply ingest_chunk_inv.
Qed.

Lemma ingest_file_inv (w0 : World) (root file_name : string) (st : IngestState) :
  ingest_inv w0 st ->
  exists st', ingest_file root file_name st = Some st' /\ ingest_inv w0 st'.
Proof.
  intros Hinv. unfold ingest_file.
  destruct (_ || _); [|eauto].
  destruct (read_text _) as [content|]; [|eauto].
  rewrite chunk_text_default. eexists. split; [reflexivity|].
  now apply ingest_chunks_inv.
Qed.

Lemma ingest_files_inv (w0 : World) (root : string) :
  forall (files : list string) (st : IngestState),
    ingest_inv w0 st ->
    exists st', ingest_files root files st = Some st' /\ ingest_inv w0 st'.
Proof.
  induction files as [|f files IH]; intros st Hinv; simpl; [eauto|].
  destruct (ingest_file_inv w0 root f st Hinv) as (st1 & -> & Hinv1).
  now apply IH.
Qed.

Lemma ingest_walk_inv (w0 : World) :
  forall (dirs : list (string * list string)) (st : IngestState),
    ingest_inv w0 st ->
    exists st', ingest_walk dirs st = Some st' /\ ingest_inv w0 st'.
Proof.
  induction dirs as [|[root files] dirs IH]; intros st Hinv; simpl; [eauto|].
  destruct (ingest_files_inv w0 root files st Hinv) as (st1 & -> & Hinv1).
  now apply IH.
Qed.

End IngestProps.

Section IngestRun.
Context `{Services}.

(** The set-up of the run: the request is made, the collection is new and
    empty, and the [await] raises. *)
Lemma ingest_ensure_collection_raises (w : World) :
  fst (ingest_ensure_collection w) = Raise (AwaitTypeError "bool") /\
  trace (snd (ingest_ensure_collection w)) =
    trace w ++ [EvRecreateCollection QDRANT_COLLECTION_NAME 768] /\
  qdrant_collections (snd (ingest_ensure_collection w)) =
    <[QDRANT_COLLECTION_NAME := {| vectors_size := 768; col_points := ∅ |}]>
      (qdrant_collections w) /\
  gemini_model (snd (ingest_ensure_collection w)) = gemini_model w /\
  llm_svc (snd (ingest_ensure_collection w)) = llm_svc w /\
  embed_svc (snd (ingest_ensure_collection w)) = embed_svc w /\
  is_Some (qdrant_client_instance (snd (ingest_ensure_collection w))).
Proof.
  unfold ingest_ensure_collection, get_qdrant_client.
  destruct (qdrant_client_instance w) eqn:Hc; simpl; repeat split; eauto.
Qed.

(** The run ends where the set-up raises. *)
Lemma ingest_run_raises (w : World) :
  ingest_book_content w =
  Some (Raise (AwaitTypeError "bool"), snd (ingest_ensure_collection w)).
Proof.
  unfold ingest_book_content.
  destruct (ingest_ensure_collection_raises w) as (Hr & _).
  destruct (ingest_ensure_collection w) as [r w1]. simpl in Hr. now subst r.
Qed.

Lemma ingest_inv_start (w : World) :
  ingest_inv w {| points := []; point_id_counter := 0; ing_world := w |}.
Proof.
  unfold ingest_inv. simpl. repeat split; auto.
  exists []. rewrite app_nil_r. repeat split; auto.
Qed.

(** The walk, by itself, returns, and numbers its points from 0. *)
Lemma ingest_collect_inv (w : World) :
  exists st, ingest_collect w = Some st /\ ingest_inv w st.
Proof. unfold ingest_collect. apply ingest_walk_inv, ingest_inv_start. Qed.

(** The upload: no call without points, one upsert of all of them
    otherwise. *)
Lemma ingest_upload_calls (st : IngestState) :
  (points st = [] -> ingest_upload st = (Ok tt, ing_world st)) /\
  new_events (ing_world st) (snd (ingest_upload st)) =
    match points st with
    | [] => []
    | _ :: _ => [EvUpsert QDRANT_COLLECTION_NAME (points st)]
    end.
Proof.
  unfold ingest_upload. destruct (points st) as [|p ps] eqn:Hp.
  - split; [reflexivity|]. unfold new_events. apply drop_all.
  - split; [discriminate|]. unfold client_upsert. simpl.
    destruct (_ !! _); simpl; apply new_events_app; reflexivity.
Qed.

(** C5: a run recreates the collection and then ends: the value that the
    synchronous client returned is awaited, which raises [TypeError]
    outside any [try]. The run embeds no chunk, gives no point an id and
    upserts no batch. *)
Theorem ingest_run_stops_before_the_walk (w : World) :
  exists w' : World,
    ingest_book_content w = Some (Raise (AwaitTypeError "bool"), w') /\
    new_events w w' = [EvRecreateCollection QDRANT_COLLECTION_NAME 768] /\
    embed_calls (new_events w w') = 0%nat /\
    upserted (new_events w w') = [].
Proof.
  exists (snd (ingest_ensure_collection w)).
  destruct (ingest_ensure_collection_raises w) as (_ & Ht & _).
  split; [apply ingest_run_raises|].
  rewrite (new_events_app _ _ _ Ht). repeat split.
Qed.

Lemma ingest_chunks_blank (file_path : string) :
  forall (chunks : list string) (i : Z) (st : IngestState),
    Forall (fun c => py_truthy (py_strip c) = false) chunks ->
    ingest_chunks file_path i chunks st = st.
Proof.
  induction chunks as [|c chunks IH]; intros i st Hb; [reflexivity|].
  inversion Hb as [|? ? Hc Hrest]; subst. simpl.
  unfold ingest_chunk. rewrite Hc. simpl.
  now apply IH.
Qed.

Lemma ingest_files_blank (root : string) (st : IngestState) :
  forall files : list string,
    (forall file_name content,
        In file_name files ->
        py_endswith file_name ".md" || py_endswith file_name ".mdx" = true ->
        read_text (os_path_join root file_name) = Some content ->
        forall fuel chunks,
          chunk_text fuel content MAX_CHUNK_SIZE OVERLAP_SIZE = Some chunks ->
          Forall (fun c => py_truthy (py_strip c) = false) chunks) ->
    ingest_files root files st = Some st.
Proof.
  induction files as [|f files IH]; intros Hb; [reflexivity|]. simpl.
  assert (ingest_file root f st = Some st) as ->.
  { unfold ingest_file.
    destruct (_ || _) eqn:Hext; [|reflexivity].
    destruct (read_text _) as [content|] eqn:Hr; [|reflexivity].
    rewrite chunk_text_default.
    rewrite ingest_chunks_blank; [reflexivity|].
    eapply (Hb f content); [now left|exact Hext|exact Hr|apply chunk_text_default]. }
  apply IH. intros f' content Hin. apply Hb. now right.
Qed.

Lemma ingest_walk_blank (st : IngestState) :
  forall dirs : list (string * list string),
    (forall root files file_name content,
        In (root, files) dirs ->
        In file_name files ->
        py_endswith file_name ".md" || py_endswith file_name ".mdx" = true ->
        read_text (os_path_join root file_name) = Some content ->
        forall fuel chunks,
          chunk_text fuel content MAX_CHUNK_SIZE OVERLAP_SIZE = Some chunks ->
          Forall (fun c => py_truthy (py_strip c) = false) chunks) ->
    ingest_walk dirs st = Some st.
Proof.
  induction dirs as [|[root files] dirs IH]; intros Hb; [reflexivity|]. simpl.
  rewrite ingest_files_blank.
  - apply IH. intros root' files' f content Hin. apply Hb. now right.
  - intros f content Hin. apply (Hb root files). now left. exact Hin.
Qed.

(** C6: a run makes no upsert call and leaves the collection with no
    point at all, over a corpus of blank chunks as over any other: it ends
    at the awaited [recreate_collection]. The code after it would do the
    same on such a corpus: the upload makes no call when no point was
    accumulated, and the walk over a corpus whose chunks are all blank
    accumulates no point and calls nothing. *)
Theorem ingest_blank_corpus_no_upsert (w : World) :
  (exists w' : World,
     ingest_book_content w = Some (Raise (AwaitTypeError "bool"), w') /\
     upserted (new_events w w') = [] /\
     embed_calls (new_events w w') = 0%nat /\
     qdrant_collections w' !! QDRANT_COLLECTION_NAME =
       Some {| vectors_size := 768; col_points := ∅ |}) /\
  (forall st : IngestState,
     points st = [] ->
     ingest_upload st = (Ok tt, ing_world st) /\
     new_events (ing_world st) (snd (ingest_upload st)) = []) /\
  (blank_corpus ->
   forall st : IngestState, ingest_walk (os_walk DOCS_PATH) st = Some st).
Proof.
  split; [|split].
  - exists (snd (ingest_ensure_collection w)).
    destruct (ingest_ensure_collection_raises w) as (_ & Ht & Hq & _).
    split; [apply ingest_run_raises|].
    rewrite (new_events_app _ _ _ Ht). repeat split.
    rewrite Hq. apply lookup_insert_eq.
  - intros st Hp. destruct (ingest_upload_calls st) as [Hup Hev].
    split; [now apply Hup|]. now rewrite Hev, Hp.
  - intros Hblank st. apply ingest_walk_blank. exact Hblank.
Qed.

End IngestRun.

Example ingest_demo_run :
  exists w',
    ingest_book_content (Demo.fresh []) = Some (Raise (AwaitTypeError "bool"), w') /\
    trace w' = [EvRecreateCollection QDRANT_COLLECTION_NAME 768].
Proof. eexists. split; reflexivity. Qed.

Example ingest_collect_demo :
  exists st,
    ingest_collect (Demo.fresh [ResourceExhausted]) = Some st /\
    map ps_id (points st) = [0] /\ point_id_counter st = 1.
Proof. eexists. split; [reflexivity|]. split; reflexivity. Qed.

Lemma ingest_blank_corpus_no_upsert_witness :
  ingest_walk (H := Demo.blank_services)
    (@os_walk Demo.blank_services (@DOCS_PATH Demo.blank_services))
    (@Build_IngestState Demo.blank_services [] 0 Demo.blank_fresh) =
  Some (@Build_IngestState Demo.blank_services [] 0 Demo.blank_fresh).
Proof.
  apply (proj2 (proj2 (@ingest_blank_corpus_no_upsert Demo.blank_services Demo.blank_fresh))).
  intros root files file_name content Hin Hf Hext Hr fuel chunks Hc.
  destruct Hin as [Heq|[]]. injection Heq as <- <-.
  destruct Hf as [<-|[<-|[<-|[]]]].
  - injection Hr as <-.
    rewrite chunk_text_fuel in Hc by (reflexivity || (vm_compute; reflexivity)).
    destruct (_ <? fuel)%nat; [|discriminate].
    injection Hc as <-. vm_compute. repeat constructor.
  - discriminate Hext.
  - discriminate Hr.
Defined.

(** ** The two collection set-ups *)

Section CollectionSetup.
Context `{Services}.

Lemma name_in_collections (name : string) (cs : gmap string Collection) :
  name_in name (map fst (map_to_list cs)) = true <-> is_Some (cs !! name).
Proof.
  unfold name_in. rewrite existsb_exists. split.
  - intros (x & Hx & He). apply String.eqb_eq in He. subst x.
    apply in_map_iff in Hx. destruct Hx as ([k c] & Hk & Hin). simpl in Hk. subst k.
    apply list_elem_of_In, elem_of_map_to_list in Hin. eauto.
  - intros [c Hc]. exists name. split; [|apply String.eqb_refl].
    apply in_map_iff. exists (name, c). split; [reflexivity|].
    apply list_elem_of_In, elem_of_map_to_list. exact Hc.
Qed.

(** The start-up check: the collections are requested, and the [await]
    on the answer of the synchronous client raises. Nothing is created. *)
Lemma initialize_raises (w : World) :
  fst (initialize_qdrant_collection w) = Raise (AwaitTypeError "CollectionsResponse") /\
  trace (snd (initialize_qdrant_collection w)) = trace w ++ [EvGetCollections] /\
  qdrant_collections (snd (initialize_qdrant_collection w)) = qdrant_collections w /\
  gemini_model (snd (initialize_qdrant_collection w)) = gemini_model w /\
  llm_svc (snd (initialize_qdrant_collection w)) = llm_svc w /\
  embed_svc (snd (initialize_qdrant_collection w)) = embed_svc w /\
  is_Some (qdrant_client_instance (snd (initialize_qdrant_collection w))).
Proof.
  unfold initialize_qdrant_collection, get_qdrant_client.
  destruct (qdrant_client_instance w) eqn:Hc; simpl; repeat split; eauto.
Qed.

(** What the request [create_collection] of the start-up path would do, on
    a server without the collection: the size it asks for is 1536. *)
Lemma client_create_collection_absent (w : World) :
  qdrant_collections w !! QDRANT_COLLECTION_NAME = None ->
  client_create_collection QDRANT_COLLECTION_NAME 1536 w =
  (Ok tt,
   set_collections
     (<[QDRANT_COLLECTION_NAME := {| vectors_size := 1536; col_points := ∅ |}]>
        (qdrant_collections w))
     (emit (EvCreateCollection QDRANT_COLLECTION_NAME 1536) w)).
Proof. intros Hc. unfold client_create_collection. simpl. now rewrite Hc. Qed.

(** C9: the ingestion path asks the server to recreate the collection
    whatever it holds: afterwards the collection is empty and configured
    for vectors of size 768, and the path ends with the [TypeError] of the
    [await]. The start-up path asks for the collections first and then
    ends with the [TypeError] of its own [await]: it leaves an existing
    collection, its points and its size, as they are, and it leaves an
    absent collection absent, the request [create_collection] with size
    1536 never being made. *)
Theorem collection_setups_disagree (w : World) :
  (fst (ingest_ensure_collection w) = Raise (AwaitTypeError "bool") /\
   qdrant_collections (snd (ingest_ensure_collection w)) !! QDRANT_COLLECTION_NAME =
     Some {| vectors_size := 768; col_points := ∅ |} /\
   new_events w (snd (ingest_ensure_collection w)) =
     [EvRecreateCollection QDRANT_COLLECTION_NAME 768]) /\
  (fst (initialize_qdrant_collection w) = Raise (AwaitTypeError "CollectionsResponse") /\
   qdrant_collections (snd (initialize_qdrant_collection w)) = qdrant_collections w /\
   new_events w (snd (initialize_qdrant_collection w)) = [EvGetCollections]) /\
  (qdrant_collections (snd (initialize_qdrant_collection (set_collections ∅ w)))
     !! QDRANT_COLLECTION_NAME = None) /\
  (forall (p : PointStruct) (size : Z),
      let stored := {| vectors_size := size; col_points := <[ps_id p := p]> ∅ |} in
      let w1 := set_collections (<[QDRANT_COLLECTION_NAME := stored]> (qdrant_collections w)) w in
      qdrant_collections (snd (initialize_qdrant_collection w1)) !! QDRANT_COLLECTION_NAME
        = Some stored /\
      qdrant_collections (snd (ingest_ensure_collection w1)) !! QDRANT_COLLECTION_NAME
        = Some {| vectors_size := 768; col_points := ∅ |} /\
      col_points stored !! ps_id p = Some p /\
      (∅ : gmap Z PointStruct) !! ps_id p = None).
Proof.
  split; [|split; [|split]].
  - destruct (ingest_ensure_collection_raises w) as (Hr & Ht & Hq & _).
    split; [exact Hr|]. split; [rewrite Hq; apply lookup_insert_eq|].
    apply new_events_app, Ht.
  - destruct (initialize_raises w) as (Hr & Ht & Hq & _).
    split; [exact Hr|]. split; [exact Hq|]. apply new_events_app, Ht.
  - destruct (initialize_raises (set_collections ∅ w)) as (_ & _ & Hq & _).
    rewrite Hq. apply lookup_empty.
  - intros p size stored w1.
    assert (qdrant_collections w1 !! QDRANT_COLLECTION_NAME = Some stored) as Hs
      by (unfold w1; simpl; apply lookup_insert_eq).
    destruct (initialize_raises w1) as (_ & _ & Hq & _).
    rewrite Hq. split; [exact Hs|].
    destruct (ingest_ensure_collection_raises w1) as (_ & _ & Hq' & _).
    rewrite Hq'. split; [apply lookup_insert_eq|].
    split; [apply lookup_insert_eq|apply lookup_empty].
Qed.

End CollectionSetup.

(** ** Sign-up and /auth/me *)

Section AuthProps.
Context `{AuthLib}.

Lemma signup_keeps (salt : string) (user_data : UserCreate)
    (users_db : gmap string UserRecord) (u : string) (r : UserRecord) :
  users_db !! u = Some r -> snd (signup salt user_data users_db) !! u = Some r.
Proof.
  intros Hu. unfold signup.
  destruct (users_db !! uc_username user_data) eqn:Hn; simpl; [exact Hu|].
  rewrite lookup_insert_ne; [exact Hu|]. congruence.
Qed.

Lemma signups_keep (reqs : list (string * UserCreate)) :
  forall (users_db : gmap string UserRecord) (u : string) (r : UserRecord),
    users_db !! u = Some r -> signups reqs users_db !! u = Some r.
Proof.
  induction reqs as [|[salt ud] reqs IH]; intros users_db u r Hu; simpl; [exact Hu|].
  apply IH. now apply signup_keeps.
Qed.

(** C10: a sign-up for a user name that is free succeeds; the record it
    stores and the response it returns both carry the user name as
    [full_name]; and from then on, whatever sign-ups follow, /auth/me for a
    token of that user reports [full_name] equal to the user name. *)
Theorem signup_full_name_is_username (salt : string) (user_data : UserCreate)
    (users_db : gmap string UserRecord) :
  users_db !! uc_username user_data = None ->
  exists (resp : User) (users_db' : gmap string UserRecord),
    signup salt user_data users_db = (Ok resp, users_db') /\
    u_username resp = uc_username user_data /\
    u_full_name resp = Some (uc_username user_data) /\
    full_name <$> users_db' !! uc_username user_data = Some (uc_username user_data) /\
    forall (later : list (string * UserCreate)) (token : string) (payload : TokenPayload),
      decode_access_token token = Some payload ->
      sub payload = Some (uc_username user_data) ->
      exists me : User,
        read_users_me token (signups later users_db') = Ok me /\
        u_username me = uc_username user_data /\
        u_full_name me = Some (uc_username user_data).
Proof.
  intros Hfree. unfold signup. rewrite Hfree.
  eexists. eexists. split; [reflexivity|]. simpl.
  split; [reflexivity|]. split; [reflexivity|].
  split; [now rewrite lookup_insert_eq|].
  intros later token payload Hdec Hsub.
  unfold read_users_me. rewrite Hdec, Hsub.
  erewrite signups_keep by apply lookup_insert_eq.
  eexists. split; [reflexivity|]. split; reflexivity.
Qed.

End AuthProps.

Lemma signup_full_name_is_username_witness :
  exists me : User,
    read_users_me (H := Demo.demo_auth) "ada"
      (snd (signup (H := Demo.demo_auth) "salt"
              {| uc_username := "ada"; uc_email := "ada@example.org"; uc_password := "pw" |}
              ∅)) = Ok me /\
    u_full_name me = Some "ada".
Proof.
  destruct (signup_full_name_is_username (H := Demo.demo_auth) "salt"
              {| uc_username := "ada"; uc_email := "ada@example.org"; uc_password := "pw" |}
              ∅ (lookup_empty _)) as (resp & db' & Hs & _ & _ & _ & Hme).
  rewrite Hs. simpl.
  destruct (Hme [] "ada" {| sub := Some "ada" |} eq_refl eq_refl) as (me & Hr & _ & Hf).
  exists me. split; [exact Hr|exact Hf].
Defined.

(** ** The /chat route *)

Lemma str_app_cons (x : ascii) (a b : string) : String x a +:+ b = String x (a +:+ b).
Proof. reflexivity. Qed.

Lemma str_app_nil (b : string) : "" +:+ b = b.
Proof. reflexivity. Qed.

Lemma str_app_assoc (a b c : string) : ((a +:+ b) +:+ c) = (a +:+ (b +:+ c)).
Proof.
  induction a as [|x a IH]; [reflexivity|].
  rewrite !str_app_cons. now rewrite IH.
Qed.

Lemma str_app_length (a b : string) :
  String.length (a +:+ b) = (String.length a + String.length b)%nat.
Proof.
  induction a as [|x a IH]; [reflexivity|].
  rewrite str_app_cons. simpl. now rewrite IH.
Qed.

Lemma substring_all (a : string) : substring 0 (String.length a) a = a.
Proof. induction a as [|x a IH]; simpl; [reflexivity|now rewrite IH]. Qed.

Lemma substring_app_skip (a b : string) (n m : nat) :
  substring (String.length a + n) m (a +:+ b) = substring n m b.
Proof.
  induction a as [|x a IH]; [reflexivity|].
  rewrite str_app_cons. simpl. exact IH.
Qed.

Lemma substring_app_within (a b : string) :
  forall n m : nat,
    (n + m <= String.length a)%nat -> substring n m (a +:+ b) = substring n m a.
Proof.
  induction a as [|x a IH]; intros n m Hle.
  - simpl in Hle. assert (n = 0%nat) by lia. assert (m = 0%nat) by lia. subst.
    rewrite str_app_nil. now rewrite !substring_empty.
  - rewrite str_app_cons. simpl in Hle. destruct n as [|n]; simpl.
    + destruct m as [|m]; [reflexivity|]. rewrite IH by lia. reflexivity.
    + apply IH. lia.
Qed.

Lemma occurs_at_start (a b : string) : occurs_at 0 a (a +:+ b).
Proof.
  unfold occurs_at. rewrite substring_app_within by lia. apply substring_all.
Qed.

Lemma occurs_at_shift (pre part whole : string) (off : nat) :
  occurs_at off part whole -> occurs_at (String.length pre + off) part (pre +:+ whole).
Proof. unfold occurs_at. intros Ho. now rewrite substring_app_skip. Qed.

Lemma occurs_at_self (a : string) : occurs_at 0 a a.
Proof. apply substring_all. Qed.

(** [sep.join] of a list with a head and a tail that is not empty. *)
Lemma py_join_cons (sep p q : string) (rest : list string) :
  py_join sep (p :: q :: rest) = p +:+ sep +:+ py_join sep (q :: rest).
Proof. reflexivity. Qed.

Lemma chunk_offset_zero (sep : string) (chunks : list string) :
  chunk_offset sep chunks 0 = 0%nat.
Proof. destruct chunks; reflexivity. Qed.

Lemma chunk_offset_succ (sep p : string) (rest : list string) (i : nat) :
  chunk_offset sep (p :: rest) (S i) =
  (String.length p + String.length sep + chunk_offset sep rest i)%nat.
Proof. reflexivity. Qed.

(** Chunk [i] stands at its offset in the joined chunks, and is followed by
    the separator and the next chunk unless it is the last. *)
Lemma py_join_layout (sep : string) :
  forall (chunks : list string) (i : nat) (c : string),
    chunks !! i = Some c ->
    occurs_at (chunk_offset sep chunks i) c (py_join sep chunks) /\
    ((S i < length chunks)%nat ->
       occurs_at (chunk_offset sep chunks i + String.length c) sep (py_join sep chunks) /\
       chunk_offset sep chunks (S i) =
         (chunk_offset sep chunks i + String.length c + String.length sep)%nat).
Proof.
  induction chunks as [|p chunks IH]; intros i c Hi; [discriminate|].
  destruct i as [|i].
  - injection Hi as ->. simpl chunk_offset. destruct chunks as [|q rest].
    + split; [apply occurs_at_self|]. simpl. lia.
    + rewrite py_join_cons. split; [apply occurs_at_start|]. intros _. split.
      * replace (0 + String.length c)%nat with (String.length c + 0)%nat by lia.
        apply occurs_at_shift, occurs_at_start.
      * rewrite chunk_offset_zero. lia.
  - simpl in Hi. destruct chunks as [|q rest]; [discriminate|].
    destruct (IH i c Hi) as [Hc Hs]. rewrite py_join_cons.
    rewrite !(chunk_offset_succ sep p). split.
    + rewrite <- Nat.add_assoc. apply occurs_at_shift.
      apply occurs_at_shift. exact Hc.
    + intros Hlt. destruct (Hs ltac:(simpl in *; lia)) as [Hs1 Hs2]. split.
      * replace (String.length p + String.length sep + chunk_offset sep (q :: rest) i
                 + String.length c)%nat
          with (String.length p + (String.length sep
                  + (chunk_offset sep (q :: rest) i + String.length c)))%nat by lia.
        apply occurs_at_shift, occurs_at_shift. exact Hs1.
      * rewrite Hs2. lia.
Qed.

Example py_join_example :
  py_join CHUNK_SEPARATOR ["A"; "B"; "C"] =
  "A" +:+ CHUNK_SEPARATOR +:+ "B" +:+ CHUNK_SEPARATOR +:+ "C".
Proof. reflexivity. Qed.

Lemma context_prefix_length (X : string) :
  String.length (SELECTED_LABEL +:+ X +:+ nl +:+ nl +:+ CHUNKS_LABEL) = chunks_base X.
Proof.
  unfold chunks_base. rewrite !str_app_length.
  change (String.length nl) with 1%nat. lia.
Qed.

(** The chunks inside [pre ++ sep.join(chunks)]. *)
Lemma joined_after_prefix (pre : string) (chunks : list string) (i : nat) (c : string) :
  chunks !! i = Some c ->
  let off := (String.length pre + chunk_offset CHUNK_SEPARATOR chunks i)%nat in
  occurs_at off c (pre +:+ py_join CHUNK_SEPARATOR chunks) /\
  ((S i < length chunks)%nat ->
     occurs_at (off + String.length c) CHUNK_SEPARATOR (pre +:+ py_join CHUNK_SEPARATOR chunks) /\
     chunk_offset CHUNK_SEPARATOR chunks (S i) =
       (chunk_offset CHUNK_SEPARATOR chunks i + String.length c
        + String.length CHUNK_SEPARATOR)%nat).
Proof.
  intros Hi off. destruct (py_join_layout CHUNK_SEPARATOR chunks i c Hi) as [Hc Hs].
  split; [now apply occurs_at_shift|].
  intros Hlt. destruct (Hs Hlt) as [Hs1 Hs2]. split; [|exact Hs2].
  unfold off. rewrite <- Nat.add_assoc. now apply occurs_at_shift.
Qed.

(** C7 (amended): the prompt is the fixed preamble, then the context, then
    the question. When [selected_text] is given and is not empty, the
    context is the label, the selected text, the chunk header and the
    retrieved chunks joined by the separator: the selected text stands
    right after its label and ends before every retrieved chunk begins.
    When [selected_text] is absent, or is the empty string, the context is
    the chunk header and the retrieved chunks joined by the separator. *)
Theorem combined_context_layout (context_text : option string)
    (retrieved_chunks : list string) (user_query : string) :
  let ctx := combined_context context_text retrieved_chunks in
  let prompt := build_prompt context_text retrieved_chunks user_query in
  occurs_at 0 PREAMBLE prompt /\
  occurs_at (String.length PREAMBLE + String.length ("Context:" +:+ nl)) ctx prompt /\
  (forall X : string,
      context_text = Some X -> X <> "" ->
      ctx = SELECTED_LABEL +:+ X +:+ nl +:+ nl +:+ CHUNKS_LABEL
            +:+ py_join CHUNK_SEPARATOR retrieved_chunks /\
      occurs_at 0 SELECTED_LABEL ctx /\
      occurs_at (String.length SELECTED_LABEL) X ctx /\
      forall (i : nat) (c : string),
        retrieved_chunks !! i = Some c ->
        let off := (chunks_base X + chunk_offset CHUNK_SEPARATOR retrieved_chunks i)%nat in
        (String.length SELECTED_LABEL + String.length X < off)%nat /\
        occurs_at off c ctx /\
        ((S i < length retrieved_chunks)%nat ->
           occurs_at (off + String.length c) CHUNK_SEPARATOR ctx /\
           chunk_offset CHUNK_SEPARATOR retrieved_chunks (S i) =
             (chunk_offset CHUNK_SEPARATOR retrieved_chunks i + String.length c
              + String.length CHUNK_SEPARATOR)%nat)) /\
  (context_text = None \/ context_text = Some "" ->
      ctx = CHUNKS_LABEL +:+ py_join CHUNK_SEPARATOR retrieved_chunks /\
      forall (i : nat) (c : string),
        retrieved_chunks !! i = Some c ->
        let off := (String.length CHUNKS_LABEL
                    + chunk_offset CHUNK_SEPARATOR retrieved_chunks i)%nat in
        occurs_at off c ctx /\
        ((S i < length retrieved_chunks)%nat ->
           occurs_at (off + String.length c) CHUNK_SEPARATOR ctx)).
Proof.
  intros ctx prompt.
  split; [apply occurs_at_start|].
  split.
  { unfold prompt, build_prompt. fold ctx.
    rewrite !str_app_assoc.
    rewrite <- (str_app_assoc "Context:" nl).
    apply occurs_at_shift.
    replace (String.length ("Context:" +:+ nl)) with (String.length ("Context:" +:+ nl) + 0)%nat
      by lia.
    apply occurs_at_shift, occurs_at_start. }
  split.
  - intros X -> HX.
    assert (ctx = SELECTED_LABEL +:+ X +:+ nl +:+ nl +:+ CHUNKS_LABEL
                  +:+ py_join CHUNK_SEPARATOR retrieved_chunks) as Hctx.
    { unfold ctx, combined_context. simpl context_truthy.
      rewrite (py_truthy_nonempty X HX). simpl context_str.
      now rewrite !str_app_assoc. }
    split; [exact Hctx|].
    split; [rewrite Hctx; apply occurs_at_start|].
    split.
    { rewrite Hctx.
      replace (String.length SELECTED_LABEL) with (String.length SELECTED_LABEL + 0)%nat
        by lia.
      apply occurs_at_shift, occurs_at_start. }
    intros i c Hi off.
    split; [unfold off, chunks_base; change (String.length CHUNKS_LABEL) with 26%nat; lia|].
    pose proof (joined_after_prefix (SELECTED_LABEL +:+ X +:+ nl +:+ nl +:+ CHUNKS_LABEL)
                  retrieved_chunks i c Hi) as Hj.
    rewrite context_prefix_length in Hj. rewrite !str_app_assoc in Hj.
    rewrite <- Hctx in Hj. exact Hj.
  - intros Hnone.
    assert (ctx = CHUNKS_LABEL +:+ py_join CHUNK_SEPARATOR retrieved_chunks) as Hctx
      by (unfold ctx; destruct Hnone as [-> | ->]; reflexivity).
    split; [exact Hctx|].
    intros i c Hi off. rewrite Hctx.
    destruct (joined_after_prefix CHUNKS_LABEL retrieved_chunks i c Hi) as [Hc Hs].
    split; [exact Hc|]. intros Hlt. now destruct (Hs Hlt).
Qed.

Lemma combined_context_layout_witness :
  combined_context (Some "X") ["A"; "B"] =
    SELECTED_LABEL +:+ "X" +:+ nl +:+ nl +:+ CHUNKS_LABEL
    +:+ py_join CHUNK_SEPARATOR ["A"; "B"] /\
  combined_context None ["A"; "B"] = CHUNKS_LABEL +:+ py_join CHUNK_SEPARATOR ["A"; "B"].
Proof.
  split.
  - destruct (combined_context_layout (Some "X") ["A"; "B"] "q") as (_ & _ & Hsel & _).
    exact (proj1 (Hsel "X" eq_refl ltac:(discriminate))).
  - destruct (combined_context_layout None ["A"; "B"] "q") as (_ & _ & _ & Hnone).
    exact (proj1 (Hnone (or_introl eq_refl))).
Defined.

(** A [selected_text] that is supplied as the empty string gets no
    labelled section: the context starts with the chunk header. *)
Lemma combined_context_empty_selection :
  combined_context (Some "") ["A"; "B"] =
    CHUNKS_LABEL +:+ py_join CHUNK_SEPARATOR ["A"; "B"] /\
  ~ occurs_at 0 SELECTED_LABEL (combined_context (Some "") ["A"; "B"]).
Proof.
  split; [reflexivity|]. unfold occurs_at. vm_compute. discriminate.
Qed.

Section ChatProps.
Context `{Services}.

(** Without the LLM handle the route fails at once, and calls nothing. *)
Lemma chat_gemini_unset (request : ChatRequest) (w : World) :
  gemini_model w = None ->
  chat_with_rag request w =
  (Raise (HTTPException 500 "Gemini client not initialized."), w).
Proof. intros Hg. unfold chat_with_rag. now rewrite Hg. Qed.

Lemma get_qdrant_client_trace (w : World) :
  trace (snd (get_qdrant_client w)) = trace w /\
  gemini_model (snd (get_qdrant_client w)) = gemini_model w /\
  is_Some (qdrant_client_instance (snd (get_qdrant_client w))).
Proof.
  unfold get_qdrant_client.
  destruct (qdrant_client_instance w) eqn:Hc; simpl; repeat split; eauto.
Qed.

(** The first attempt of the embedder is a request. *)
Lemma embedding_attempts_first (text : string) (delay : Z) (n : nat) (w : World) :
  exists evs,
    trace (snd (embedding_attempts (S n) text delay w)) =
    trace w ++ final_attempt text ++ evs.
Proof.
  cbn [embedding_attempts].
  pose proof (call_embed_content_trace text w) as Ht.
  destruct (call_embed_content text w) as [r w1]. simpl in Ht.
  destruct r.
  - exists []. simpl. now rewrite Ht.
  - destruct (embedding_attempts_bounded text delay n (emit (EvSleep delay) w1))
      as (evs & He & _).
    exists (EvSleep delay :: evs). rewrite He. simpl. rewrite Ht.
    now rewrite <- !app_assoc.
  - exists []. simpl. now rewrite Ht.
Qed.

(** The search of the route: the request is made, and then either the
    server refuses it, or the [await] on the list that the synchronous
    client returned raises. *)
Lemma chat_search_raises (qe : Vector) (w : World) :
  await_plain "list" (fst (client_search QDRANT_COLLECTION_NAME qe 5 w)) =
    Raise (match qdrant_collections w !! QDRANT_COLLECTION_NAME with
           | Some _ => AwaitTypeError "list"
           | None => ServiceError "Collection not found"
           end) /\
  snd (client_search QDRANT_COLLECTION_NAME qe 5 w) =
    emit (EvSearch QDRANT_COLLECTION_NAME qe 5) w.
Proof.
  unfold client_search. simpl.
  destruct (qdrant_collections w !! QDRANT_COLLECTION_NAME); simpl; split; reflexivity.
Qed.

(** The route with the LLM handle set, step by step: the client is
    fetched, or made; the question is embedded; the search is requested
    and raises, which the route turns into a 500. The steps after the
    search are never reached. *)
Lemma chat_with_rag_run (request : ChatRequest) (w : World) (model : GenerativeModel) :
  gemini_model w = Some model ->
  chat_with_rag request w =
  match generate_embedding (question request) DEFAULT_MAX_RETRIES DEFAULT_DELAY
          (snd (get_qdrant_client w)) with
  | (None, w1) => (Raise (HTTPException 500 "Failed to generate query embedding."), w1)
  | (Some qe, w1) =>
      (Raise (HTTPException 500
                ("Qdrant search failed: " +:+
                 exn_str match qdrant_collections (snd (get_qdrant_client w1))
                                 !! QDRANT_COLLECTION_NAME with
                         | Some _ => AwaitTypeError "list"
                         | None => ServiceError "Collection not found"
                         end)),
       emit (EvSearch QDRANT_COLLECTION_NAME qe 5) (snd (get_qdrant_client w1)))
  end.
Proof.
  intros Hg. unfold chat_with_rag. rewrite Hg.
  destruct (get_qdrant_client w) as [client w0]. simpl negb. cbv iota. cbn [snd].
  destruct (generate_embedding _ _ _ w0) as [[qe|] w1]; [|reflexivity].
  destruct (get_qdrant_client w1) as [client1 w2]. cbn [snd].
  destruct (chat_search_raises qe w2) as [Hr Hw].
  destruct (client_search QDRANT_COLLECTION_NAME qe 5 w2) as [found w3].
  cbn [fst snd] in Hr, Hw. rewrite Hr. subst w3.
  destruct (qdrant_collections w2 !! QDRANT_COLLECTION_NAME); reflexivity.
Qed.

(** With the LLM handle set, the route goes on to the embedding service,
    whether or not the Qdrant client was there: [get_qdrant_client] makes
    one. *)
Lemma chat_calls_embedding (request : ChatRequest) (w : World) (model : GenerativeModel) :
  gemini_model w = Some model ->
  exists evs,
    trace (snd (chat_with_rag request w)) =
    trace w ++ final_attempt (question request) ++ evs.
Proof.
  intros Hg. rewrite (chat_with_rag_run request w model Hg).
  destruct (get_qdrant_client_trace w) as (Ht0 & _ & _).
  destruct (get_qdrant_client w) as [client w0]. cbn [snd] in *.
  unfold generate_embedding.
  destruct (embedding_attempts_first (question request) DEFAULT_DELAY 4 w0) as (evs & He).
  change (Z.to_nat DEFAULT_MAX_RETRIES) with 5%nat.
  destruct (embedding_attempts 5 _ _ w0) as [[qe|] w1]; cbn [snd] in He;
    [|exists evs; cbn [snd]; now rewrite He, Ht0].
  destruct (get_qdrant_client_trace w1) as (Ht1 & _ & _).
  destruct (get_qdrant_client w1) as [client1 w2]. cbn [snd] in *.
  exists (evs ++ [EvSearch QDRANT_COLLECTION_NAME qe 5]).
  simpl. rewrite Ht1, He, Ht0, <- !app_assoc. reflexivity.
Qed.

(** With the LLM handle set, every request is answered 500: on the
    embedding of the question, or on the search, with the words of the
    exception that the search or its [await] raised. *)
Lemma chat_never_answers (request : ChatRequest) (w : World) (model : GenerativeModel) :
  gemini_model w = Some model ->
  fst (chat_with_rag request w) =
    Raise (HTTPException 500 "Failed to generate query embedding.") \/
  exists e : Exn,
    (e = ServiceError "Collection not found" \/ e = AwaitTypeError "list") /\
    fst (chat_with_rag request w) =
      Raise (HTTPException 500 ("Qdrant search failed: " +:+ exn_str e)).
Proof.
  intros Hg. rewrite (chat_with_rag_run request w model Hg).
  destruct (generate_embedding _ _ _ _) as [[qe|] w1]; [|now left].
  right. destruct (_ !! _); cbn [fst]; eauto.
Qed.

(** The guard on the Qdrant client never fires. *)
Lemma chat_qdrant_guard_dead (request : ChatRequest) (w : World) :
  fst (chat_with_rag request w) <>
  Raise (HTTPException 500 "Qdrant client not initialized.").
Proof.
  destruct (gemini_model w) as [model|] eqn:Hg.
  - destruct (chat_never_answers request w model Hg) as [Hr|(e & [->| ->] & Hr)];
      rewrite Hr; discriminate.
  - rewrite (chat_gemini_unset request w Hg). simpl. discriminate.
Qed.

(** C8: without the LLM handle, /chat answers 500 and calls nothing. With
    the LLM handle set there is no state in which the guard on the Qdrant
    client fires, since [get_qdrant_client] makes the client it finds
    missing: the route requests the embedding of the question first, and
    answers 500 only afterwards, on the embedding or on the search (which
    the server refuses when start-up left it without the collection). *)
Theorem chat_index_guard_never_fires (request : ChatRequest) (w : World) :
  (gemini_model w = None ->
   chat_with_rag request w =
   (Raise (HTTPException 500 "Gemini client not initialized."), w)) /\
  (is_Some (gemini_model w) ->
   fst (chat_with_rag request w) <>
     Raise (HTTPException 500 "Qdrant client not initialized.") /\
   (exists evs : list Event,
      new_events w (snd (chat_with_rag request w)) =
      EvEmbedContent EMBEDDING_MODEL (question request) "retrieval_document" :: evs) /\
   (fst (chat_with_rag request w) =
      Raise (HTTPException 500 "Failed to generate query embedding.") \/
    exists e : Exn,
      (e = ServiceError "Collection not found" \/ e = AwaitTypeError "list") /\
      fst (chat_with_rag request w) =
        Raise (HTTPException 500 ("Qdrant search failed: " +:+ exn_str e)))).
Proof.
  split; [apply chat_gemini_unset|].
  intros [model Hg]. split; [apply chat_qdrant_guard_dead|].
  split; [|now apply (chat_never_answers request w model)].
  destruct (chat_calls_embedding request w model Hg) as (evs & Ht).
  exists evs. now apply new_events_app.
Qed.

End ChatProps.

(** The state that start-up leaves, with an API key and a server without
    the collection: the client is stored, the LLM handle is set, and the
    collection is still absent. There /chat embeds the question, asks for
    the search, and answers 500. *)
Lemma chat_index_guard_never_fires_witness :
  fst (chat_with_rag {| question := "What do robots do?"; selected_text := None |}
         (app_world (lifespan_startup (H0 := DemoStartup.with_key) DemoStartup.fresh_app))) <>
    Raise (HTTPException 500 "Qdrant client not initialized.") /\
  (exists evs : list Event,
     new_events
       (app_world (lifespan_startup (H0 := DemoStartup.with_key) DemoStartup.fresh_app))
       (snd (chat_with_rag {| question := "What do robots do?"; selected_text := None |}
               (app_world (lifespan_startup (H0 := DemoStartup.with_key)
                             DemoStartup.fresh_app)))) =
     EvEmbedContent EMBEDDING_MODEL "What do robots do?" "retrieval_document" :: evs) /\
  (fst (chat_with_rag {| question := "What do robots do?"; selected_text := None |}
          (app_world (lifespan_startup (H0 := DemoStartup.with_key) DemoStartup.fresh_app))) =
     Raise (HTTPException 500 "Failed to generate query embedding.") \/
   exists e : Exn,
     (e = ServiceError "Collection not found" \/ e = AwaitTypeError "list") /\
     fst (chat_with_rag {| question := "What do robots do?"; selected_text := None |}
            (app_world (lifespan_startup (H0 := DemoStartup.with_key)
                          DemoStartup.fresh_app))) =
       Raise (HTTPException 500 ("Qdrant search failed: " +:+ exn_str e))).
Proof.
  apply (proj2 (chat_index_guard_never_fires
                  {| question := "What do robots do?"; selected_text := None |}
                  (app_world (lifespan_startup (H0 := DemoStartup.with_key)
                                DemoStartup.fresh_app)))).
  vm_compute. eauto.
Defined.

Example chat_after_startup_demo :
  chat_with_rag {| question := "What do robots do?"; selected_text := None |}
    (app_world (lifespan_startup (H0 := DemoStartup.with_key) DemoStartup.fresh_app)) =
  (Raise (HTTPException 500 "Qdrant search failed: Collection not found"),
   @Build_World Demo.demo_services
     (Some {| client_host := Some "localhost"; client_api_key := None |})
     (Some {| model_name := "gemini-1.5-flash" |}) [] tt ∅
     [EvGetCollections;
      EvEmbedContent EMBEDDING_MODEL "What do robots do?" "retrieval_document";
      EvSearch QDRANT_COLLECTION_NAME [PrimFloat.zero] 5]).
Proof. vm_compute. reflexivity. Qed.

Example chat_over_index_demo :
  qdrant_client_instance Demo.llm_only_indexed = None /\
  chat_with_rag {| question := "What do robots do?"; selected_text := None |}
    Demo.llm_only_indexed =
  (Raise (HTTPException 500
            ("Qdrant search failed: " +:+ exn_str (AwaitTypeError "list"))),
   @Build_World Demo.demo_services
     (Some {| client_host := Some "localhost"; client_api_key := None |})
     (Some {| model_name := "gemini-1.5-flash" |}) [] tt
     (qdrant_collections Demo.llm_only_indexed)
     [EvEmbedContent EMBEDDING_MODEL "What do robots do?" "retrieval_document";
      EvSearch QDRANT_COLLECTION_NAME [PrimFloat.zero] 5]).
Proof. split; reflexivity. Qed.

Example chat_gemini_unset_demo :
  chat_with_rag {| question := "q"; selected_text := None |} (Demo.fresh []) =
  (Raise (HTTPException 500 "Gemini client not initialized."), Demo.fresh []).
Proof. reflexivity. Qed.

(** * Further properties *)

(** ** The chunker: sizes, overlap and reassembly *)

Lemma windows_empty (W O : Z) : O < W -> windows "" W O = [].
Proof.
  intros HOW. unfold windows, chunk_count, ceil_div.
  change (py_len "") with 0.
  rewrite Z.div_small by lia. reflexivity.
Qed.

(** What [chunk_text] returns, for a size that is not negative. *)
Lemma chunk_text_returns_windows (text : string) (W O : Z) (fuel : nat) (chunks : list string) :
  0 <= W -> O < W ->
  chunk_text fuel text W O = Some chunks ->
  chunks = windows text W O.
Proof.
  intros HW HOW Hc. destruct (py_truthy text) eqn:Ht.
  - rewrite chunk_text_fuel in Hc by assumption.
    destruct (_ <? fuel)%nat; [|discriminate].
    injection Hc as <-. now apply slices_are_windows.
  - destruct text; [|discriminate]. rewrite windows_empty by assumption.
    now injection Hc as <-.
Qed.

(** With an overlap below the size, the call returns: one loop test per
    window and the closing one are enough. *)
Lemma chunk_text_returns (text : string) (W O : Z) :
  O < W ->
  exists chunks, chunk_text (S (chunk_count (py_len text) W O)) text W O = Some chunks.
Proof.
  intros HOW. destruct (py_truthy text) eqn:Ht.
  - eexists. rewrite chunk_text_fuel by assumption.
    rewrite (proj2 (Nat.ltb_lt _ _)) by lia. reflexivity.
  - destruct text; [|discriminate]. exists []. apply chunk_text_empty.
Qed.

Lemma windows_lookup_inv (text : string) (W O : Z) (i : nat) (c : string) :
  windows text W O !! i = Some c ->
  (i < chunk_count (py_len text) W O)%nat /\ c = window text W O i.
Proof.
  intros Hi. pose proof (lookup_lt_Some _ _ _ Hi) as Hlt.
  rewrite windows_length in Hlt. split; [exact Hlt|].
  rewrite windows_lookup in Hi by exact Hlt. congruence.
Qed.

(** X1: with a positive size and a smaller overlap, of either sign, the
    call returns, and no chunk is empty: chunk [i] has
    [min(W, L - i*(W-O))] characters, which is [W] exactly when its window
    fits in the text. *)
Theorem chunk_text_chunk_sizes (text : string) (W O : Z) :
  0 < W -> O < W ->
  (exists chunks, chunk_text (S (chunk_count (py_len text) W O)) text W O = Some chunks) /\
  forall (fuel : nat) (chunks : list string),
    chunk_text fuel text W O = Some chunks ->
    forall (i : nat) (c : string),
      chunks !! i = Some c ->
      0 < py_len c <= W /\
      py_len c = Z.min W (py_len text - window_start W O i) /\
      (py_len c = W <-> window_start W O i + W <= py_len text).
Proof.
  intros HW HOW. split; [now apply chunk_text_returns|].
  intros fuel chunks Hc i c Hi.
  apply chunk_text_returns_windows in Hc; [|lia|assumption]. subst chunks.
  apply windows_lookup_inv in Hi as [Hlt ->].
  pose proof (window_len text W O i ltac:(lia) HOW Hlt) as Hlen.
  apply chunk_count_lt in Hlt; [|assumption].
  unfold window_stop in Hlen. lia.
Qed.

Lemma chunk_text_chunk_sizes_witness :
  0 < py_len "j" <= 4 /\
  py_len "j" = Z.min 4 (py_len "abcdefghij" - window_start 4 1 3) /\
  (py_len "j" = 4 <-> window_start 4 1 3 + 4 <= py_len "abcdefghij").
Proof.
  apply (proj2 (chunk_text_chunk_sizes "abcdefghij" 4 1 ltac:(lia) ltac:(lia))
           5%nat ["abcd"; "defg"; "ghij"; "j"]);
    reflexivity.
Defined.

(** X2: with [0 <= O < W] the call returns, and two chunks in a row
    overlap as the parameters say: the characters of chunk [i] from offset
    [W - O] on are the first characters of chunk [i + 1], and there are
    [min(O, L - (i+1)*(W-O))] of them. *)
Theorem chunk_text_overlap (text : string) (W O : Z) :
  0 <= O < W ->
  (exists chunks, chunk_text (S (chunk_count (py_len text) W O)) text W O = Some chunks) /\
  forall (fuel : nat) (chunks : list string),
    chunk_text fuel text W O = Some chunks ->
    forall (i : nat) (c c' : string),
      chunks !! i = Some c ->
      chunks !! S i = Some c' ->
      py_len c - (W - O) = Z.min O (py_len text - window_start W O (S i)) /\
      py_len c - (W - O) <= py_len c' /\
      forall k, W - O <= k < py_len c ->
        String.get (Z.to_nat k) c = String.get (Z.to_nat (k - (W - O))) c'.
Proof.
  intros HOW. split; [apply chunk_text_returns; lia|].
  intros fuel chunks Hc i c c' Hi Hi'.
  apply chunk_text_returns_windows in Hc; [|lia|lia]. subst chunks.
  apply windows_lookup_inv in Hi as [Hlt ->].
  apply windows_lookup_inv in Hi' as [Hlt' ->].
  pose proof (window_len text W O i ltac:(lia) ltac:(lia) Hlt) as Hlen.
  pose proof (window_len text W O (S i) ltac:(lia) ltac:(lia) Hlt') as Hlen'.
  pose proof (window_start_nonneg W O i ltac:(lia)) as Hs.
  assert (window_start W O (S i) = window_start W O i + (W - O)) as Hnext
    by (unfold window_start; lia).
  apply chunk_count_lt in Hlt'; [|lia].
  unfold window_stop in *.
  split; [lia|]. split; [lia|].
  intros k Hk.
  replace (Z.to_nat k) with (Z.to_nat ((window_start W O i + k) - window_start W O i))
    by (f_equal; lia).
  rewrite (window_get text W O i (window_start W O i + k))
    by (unfold window_stop; lia).
  replace (Z.to_nat (k - (W - O)))
    with (Z.to_nat ((window_start W O i + k) - window_start W O (S i)))
    by (f_equal; lia).
  rewrite (window_get text W O (S i) (window_start W O i + k))
    by (unfold window_stop; lia).
  reflexivity.
Qed.

Lemma chunk_text_overlap_witness :
  py_len "abcd" - (4 - 1) = Z.min 1 (py_len "abcdefghij" - window_start 4 1 1) /\
  py_len "abcd" - (4 - 1) <= py_len "defg" /\
  forall k, 4 - 1 <= k < py_len "abcd" ->
    String.get (Z.to_nat k) "abcd" = String.get (Z.to_nat (k - (4 - 1))) "defg".
Proof.
  apply (proj2 (chunk_text_overlap "abcdefghij" 4 1 ltac:(lia))
           5%nat ["abcd"; "defg"; "ghij"; "j"]);
    reflexivity.
Defined.

Lemma str_app_nil_r (s : string) : s +:+ "" = s.
Proof.
  induction s as [|x s IH]; [reflexivity|]. rewrite str_app_cons. now rewrite IH.
Qed.

Lemma py_join_no_separator (parts : list string) :
  py_join "" parts = fold_right String.append "" parts.
Proof.
  induction parts as [|p [|q rest] IH]; [reflexivity| |].
  - simpl. now rewrite str_app_nil_r.
  - rewrite py_join_cons, IH. reflexivity.
Qed.

Lemma substring_of_empty (n m : nat) : substring n m "" = "".
Proof. destruct n, m; reflexivity. Qed.

(** A substring splits at any point into two substrings. *)
Lemma substring_split (s : string) :
  forall a b c : nat,
    substring a (b + c) s = substring a b s +:+ substring (a + b) c s.
Proof.
  induction s as [|x s IH]; intros a b c.
  - now rewrite !substring_of_empty.
  - destruct a as [|a].
    + destruct b as [|b].
      * rewrite substring_empty. reflexivity.
      * simpl. rewrite str_app_cons. f_equal. apply (IH 0%nat).
    + simpl. apply IH.
Qed.

(** Without overlap, the windows from number [k] on make up the text from
    the start of window [k] on. *)
Lemma windows_concat (text : string) (W : Z) :
  0 < W ->
  forall m k : nat,
    (k + m = chunk_count (py_len text) W 0)%nat ->
    fold_right String.append "" (map (window text W 0) (seq k m)) =
    substring (Z.to_nat (window_start W 0 k))
              (String.length text - Z.to_nat (window_start W 0 k)) text.
Proof.
  intros HW. induction m as [|m IH]; intros k Hk.
  - simpl. assert (~ (k < chunk_count (py_len text) W 0)%nat) as Hn by lia.
    rewrite chunk_count_lt in Hn by lia. unfold py_len in Hn.
    replace (String.length text - Z.to_nat (window_start W 0 k))%nat with 0%nat by lia.
    now rewrite substring_empty.
  - cbn [seq map fold_right]. rewrite IH by lia.
    assert (k < chunk_count (py_len text) W 0)%nat as Hlt by lia.
    apply chunk_count_lt in Hlt; [|lia].
    pose proof (window_start_nonneg W 0 k ltac:(lia)) as Hs.
    assert (window_start W 0 (S k) = window_start W 0 k + W) as Hnext
      by (unfold window_start; lia).
    unfold window, window_stop, py_len in *. rewrite Hnext.
    destruct (Z.le_gt_cases (window_start W 0 k + W) (Z.of_nat (String.length text)))
      as [Hfit|Hcut].
    + replace (Z.to_nat (Z.min (window_start W 0 k + W) (Z.of_nat (String.length text))
                         - window_start W 0 k)) with (Z.to_nat W) by lia.
      replace (Z.to_nat (window_start W 0 k + W))
        with (Z.to_nat (window_start W 0 k) + Z.to_nat W)%nat by lia.
      rewrite <- substring_split. f_equal. lia.
    + replace (String.length text - Z.to_nat (window_start W 0 k + W))%nat with 0%nat by lia.
      rewrite substring_empty, str_app_nil_r. f_equal. lia.
Qed.

(** X3: without overlap and with a positive size the call returns, and
    the chunks put end to end, that is, joined by the empty string, are the
    text. *)
Theorem chunk_text_reassembles (text : string) (W : Z) :
  0 < W ->
  (exists chunks, chunk_text (S (chunk_count (py_len text) W 0)) text W 0 = Some chunks) /\
  forall (fuel : nat) (chunks : list string),
    chunk_text fuel text W 0 = Some chunks ->
    py_join "" chunks = text.
Proof.
  intros HW. split; [apply chunk_text_returns; lia|].
  intros fuel chunks Hc. apply chunk_text_returns_windows in Hc; [|lia|lia]. subst chunks.
  rewrite py_join_no_separator. unfold windows.
  rewrite (windows_concat text W HW _ 0%nat) by lia.
  change (Z.to_nat (window_start W 0 0)) with 0%nat.
  rewrite Nat.sub_0_r. apply substring_all.
Qed.

Lemma chunk_text_reassembles_witness :
  py_join "" ["abcd"; "efgh"; "ij"] = "abcdefghij".
Proof.
  apply (proj2 (chunk_text_reassembles "abcdefghij" 4 ltac:(lia))
           4%nat ["abcd"; "efgh"; "ij"]).
  reflexivity.
Defined.

(** ** The embedder: what it leaves alone *)

Lemma sleep_calls_app (a b : list Event) :
  sleep_calls (a ++ b) = (sleep_calls a + sleep_calls b)%nat.
Proof.
  induction a as [|e a IH]; [reflexivity|].
  destruct e; simpl; rewrite IH; reflexivity.
Qed.


Lemma llm_calls_app (a b : list Event) :
  llm_calls (a ++ b) = (llm_calls a + llm_calls b)%nat.
Proof.
  induction a as [|e a IH]; [reflexivity|].
  destruct e; simpl; rewrite IH; reflexivity.
Qed.

(** Requests for embeddings and waits are no searches, LLM calls or
    upserts. *)
Lemma embed_events_count (evs : list Event) :
  forallb is_embed_event evs = true ->
  search_calls evs = 0%nat /\ llm_calls evs = 0%nat /\ upserted evs = [] /\
  forallb is_chat_event evs = true.
Proof.
  induction evs as [|e evs IH]; [repeat split|].
  simpl. intros He. apply andb_true_iff in He as [He Hrest].
  destruct (IH Hrest) as (Hs & Hl & Hu & Hc).
  destruct e; try discriminate; simpl; rewrite Hc; repeat split; assumption.
Qed.

Section EmbedderFrame.
Context `{Services}.

Lemma embed_only_step_refl (w : World) : embed_only_step w w.
Proof.
  unfold embed_only_step. repeat split. exists []. now rewrite app_nil_r.
Qed.

Lemma embed_only_step_trans (w1 w2 w3 : World) :
  embed_only_step w1 w2 -> embed_only_step w2 w3 -> embed_only_step w1 w3.
Proof.
  intros (Hc & Hg & Hl & Hq & evs & Ht & He) (Hc' & Hg' & Hl' & Hq' & evs' & Ht' & He').
  unfold embed_only_step. repeat split; try congruence.
  exists (evs ++ evs'). split.
  - rewrite Ht', Ht. now rewrite <- app_assoc.
  - rewrite forallb_app, He, He'. reflexivity.
Qed.

Lemma call_embed_content_step (text : string) (w : World) :
  embed_only_step w (snd (call_embed_content text w)).
Proof.
  unfold call_embed_content. destruct (embed_content _ _ _ _) as [r s].
  unfold embed_only_step. simpl. repeat split.
  eexists. split; reflexivity.
Qed.

Lemma emit_sleep_step (delay : Z) (w : World) : embed_only_step w (emit (EvSleep delay) w).
Proof.
  unfold embed_only_step. simpl. repeat split. eexists. split; reflexivity.
Qed.

Lemma embedding_attempts_step (text : string) (delay : Z) :
  forall (n : nat) (w : World),
    embed_only_step w (snd (embedding_attempts n text delay w)).
Proof.
  induction n as [|n IH]; intros w; simpl; [apply embed_only_step_refl|].
  pose proof (call_embed_content_step text w) as Hstep.
  destruct (call_embed_content text w) as [r w1]. simpl in Hstep.
  destruct r; simpl; try exact Hstep.
  eapply embed_only_step_trans; [exact Hstep|].
  eapply embed_only_step_trans; [apply emit_sleep_step|apply IH].
Qed.

Lemma generate_embedding_step (text : string) (max_retries delay : Z) (w : World) :
  embed_only_step w (snd (generate_embedding text max_retries delay w)).
Proof. apply embedding_attempts_step. Qed.

(** The waits of a call: one after each request but, when the call ends
    on an answer or on another exception, the last. *)
Lemma embedding_attempts_waits (text : string) (delay : Z) :
  forall (n : nat) (w : World),
    exists evs,
      trace (snd (embedding_attempts n text delay w)) = trace w ++ evs /\
      Forall (fun e => e = EvEmbedContent EMBEDDING_MODEL text "retrieval_document" \/
                       e = EvSleep delay) evs /\
      (sleep_calls evs <= embed_calls evs <= n)%nat /\
      (embed_calls evs <= S (sleep_calls evs))%nat /\
      (is_Some (fst (embedding_attempts n text delay w)) ->
       embed_calls evs = S (sleep_calls evs)).
Proof.
  induction n as [|n IH]; intros w; simpl.
  - exists []. rewrite app_nil_r. repeat split; auto; try lia.
    intros [v Hv]. discriminate.
  - pose proof (call_embed_content_trace text w) as Ht.
    destruct (call_embed_content text w) as [r w1]. simpl in Ht.
    destruct r.
    + exists (final_attempt text). split; [exact Ht|].
      split; [repeat constructor|]. simpl. repeat split; lia.
    + destruct (IH (emit (EvSleep delay) w1)) as (evs & He & Hall & Hle & Hge & Hok).
      exists (limited_attempt text delay ++ evs). split; [|split].
      * rewrite He. simpl. rewrite Ht. unfold limited_attempt, final_attempt.
        now rewrite <- !app_assoc.
      * apply Forall_app. split; [|exact Hall].
        unfold limited_attempt. constructor; [now left|]. constructor; [now right|constructor].
      * rewrite embed_calls_app, sleep_calls_app. simpl.
        repeat split; try lia. intros Hs. specialize (Hok Hs). lia.
    + exists (final_attempt text). split; [exact Ht|].
      split; [repeat constructor|]. simpl. repeat split; lia.
Qed.

(** X4: a call of [generate_embedding] leaves the Qdrant client, the
    collections, the LLM handle and the LLM alone; it adds to the trace only
    requests for this text and waits of [delay]; it waits at most once per
    request, at most [max_retries] times in all, and a call that returns an
    embedding made one request more than it waited. *)
Theorem generate_embedding_frame (text : string) (max_retries delay : Z) (w : World) :
  let run := generate_embedding text max_retries delay w in
  qdrant_client_instance (snd run) = qdrant_client_instance w /\
  gemini_model (snd run) = gemini_model w /\
  llm_svc (snd run) = llm_svc w /\
  qdrant_collections (snd run) = qdrant_collections w /\
  Forall (fun e => e = EvEmbedContent EMBEDDING_MODEL text "retrieval_document" \/
                   e = EvSleep delay) (new_events w (snd run)) /\
  (sleep_calls (new_events w (snd run)) <= embed_calls (new_events w (snd run))
   <= Z.to_nat max_retries)%nat /\
  (embed_calls (new_events w (snd run)) <= S (sleep_calls (new_events w (snd run))))%nat /\
  (forall v, fst run = Some v ->
     embed_calls (new_events w (snd run)) = S (sleep_calls (new_events w (snd run)))).
Proof.
  intros run. unfold run.
  destruct (generate_embedding_step text max_retries delay w) as (Hc & Hg & Hl & Hq & _).
  unfold generate_embedding in *.
  destruct (embedding_attempts_waits text delay (Z.to_nat max_retries) w)
    as (evs & Ht & Hall & Hle & Hge & Hok).
  rewrite (new_events_app _ _ _ Ht).
  repeat split; try assumption; try lia.
  intros v Hv. apply Hok. rewrite Hv. eauto.
Qed.

(** X5: with [max_retries] zero or negative the loop body never runs: the
    call returns [None] and calls nothing. *)
Theorem generate_embedding_no_attempts (text : string) (max_retries delay : Z) (w : World) :
  max_retries <= 0 ->
  generate_embedding text max_retries delay w = (None, w).
Proof.
  intros Hn. unfold generate_embedding.
  replace (Z.to_nat max_retries) with 0%nat by lia. reflexivity.
Qed.

End EmbedderFrame.

Lemma generate_embedding_no_attempts_witness :
  generate_embedding "hello" (-1) 5 (Demo.fresh [Embedded [PrimFloat.one]]) =
  (None, Demo.fresh [Embedded [PrimFloat.one]]).
Proof. apply generate_embedding_no_attempts. lia. Defined.

(** ** The ingestion run: what it reads, what it stores *)

Section IngestViewsProps.
Context `{Services}.

(** One chunk: the points stay, or grow by the point of this chunk. *)
Lemma ingest_chunk_points (file_path : string) (i : Z) (chunk : string) (st : IngestState) :
  points (ingest_chunk file_path i chunk st) = points st \/
  (py_truthy (py_strip chunk) = true /\
   exists v,
     points (ingest_chunk file_path i chunk st) =
     points st ++ [{| ps_id := point_id_counter st; ps_vector := v;
                      ps_payload := chunk_metadata file_path i chunk |}]).
Proof.
  unfold ingest_chunk.
  destruct (py_truthy (py_strip chunk)) eqn:Hb; simpl; [|now left].
  destruct (generate_embedding _ _ _ _) as [[v|] w1]; simpl; [|now left].
  right. split; [reflexivity|exists v; reflexivity].
Qed.

Lemma ingest_chunk_step (file_path : string) (i : Z) (chunk : string) (st : IngestState) :
  embed_only_step (ing_world st) (ing_world (ingest_chunk file_path i chunk st)).
Proof.
  unfold ingest_chunk.
  destruct (py_truthy (py_strip chunk)); simpl; [|apply embed_only_step_refl].
  pose proof (generate_embedding_step chunk DEFAULT_MAX_RETRIES DEFAULT_DELAY (ing_world st))
    as Hstep.
  destruct (generate_embedding _ _ _ _) as [[v|] w1]; exact Hstep.
Qed.

Lemma ingest_chunks_step (file_path : string) :
  forall (chunks : list string) (i : Z) (st : IngestState),
    embed_only_step (ing_world st) (ing_world (ingest_chunks file_path i chunks st)).
Proof.
  induction chunks as [|c chunks IH]; intros i st; simpl; [apply embed_only_step_refl|].
  eapply embed_only_step_trans; [apply ingest_chunk_step|apply IH].
Qed.

Lemma ingest_file_step (root file_name : string) (st st' : IngestState) :
  ingest_file root file_name st = Some st' ->
  embed_only_step (ing_world st) (ing_world st').
Proof.
  unfold ingest_file. intros Hf.
  destruct (_ || _); [|injection Hf as <-; apply embed_only_step_refl].
  destruct (read_text _); [|injection Hf as <-; apply embed_only_step_refl].
  destruct (chunk_text _ _ _ _); [|discriminate].
  injection Hf as <-. apply ingest_chunks_step.
Qed.

Lemma ingest_files_step (root : string) :
  forall (files : list string) (st st' : IngestState),
    ingest_files root files st = Some st' ->
    embed_only_step (ing_world st) (ing_world st').
Proof.
  induction files as [|f files IH]; intros st st' Hf; simpl in Hf.
  - injection Hf as <-. apply embed_only_step_refl.
  - destruct (ingest_file root f st) as [st1|] eqn:H1; [|discriminate].
    eapply embed_only_step_trans; [eapply ingest_file_step; exact H1|now apply IH].
Qed.

Lemma ingest_walk_step :
  forall (dirs : list (string * list string)) (st st' : IngestState),
    ingest_walk dirs st = Some st' ->
    embed_only_step (ing_world st) (ing_world st').
Proof.
  induction dirs as [|[root files] dirs IH]; intros st st' Hw; simpl in Hw.
  - injection Hw as <-. apply embed_only_step_refl.
  - destruct (ingest_files root files st) as [st1|] eqn:H1; [|discriminate].
    eapply embed_only_step_trans; [eapply ingest_files_step; exact H1|now apply IH].
Qed.

(** A file that is no document leaves the state as it is. *)
Lemma ingest_file_not_document (root file_name : string) (st : IngestState) :
  is_document root file_name = false -> ingest_file root file_name st = Some st.
Proof.
  unfold is_document, ingest_file. intros Hd.
  destruct (_ || _); [|reflexivity].
  destruct (read_text _); [discriminate|reflexivity].
Qed.

Lemma ingest_files_filter (root : string) :
  forall (files : list string) (st : IngestState),
    ingest_files root files st = ingest_files root (List.filter (is_document root) files) st.
Proof.
  induction files as [|f files IH]; intros st; [reflexivity|]. simpl.
  destruct (is_document root f) eqn:Hd.
  - simpl. destruct (ingest_file root f st); [apply IH|reflexivity].
  - rewrite ingest_file_not_document by exact Hd. apply IH.
Qed.

(** X6: the run passes over every file that does not end in [.md] or
    [.mdx] and over every file that cannot be read: it does what it would do
    on the tree without these files, so the other files are indexed all the
    same. *)
Theorem ingest_walk_skips_non_documents :
  forall (dirs : list (string * list string)) (st : IngestState),
    ingest_walk dirs st =
    ingest_walk (map (fun d => (fst d, List.filter (is_document (fst d)) (snd d))) dirs) st.
Proof.
  induction dirs as [|[root files] dirs IH]; intros st; [reflexivity|]. simpl.
  rewrite <- ingest_files_filter.
  destruct (ingest_files root files st); [apply IH|reflexivity].
Qed.

(** The points that the chunks of one file add satisfy what the points of
    its chunks that are not blank satisfy. *)
Lemma ingest_chunks_Forall (Q : PointStruct -> Prop) (file_path : string) :
  forall (chunks pre : list string) (st : IngestState),
    Forall Q (points st) ->
    (forall (k : nat) (c : string) (id : Z) (v : Vector),
        (pre ++ chunks) !! k = Some c ->
        py_truthy (py_strip c) = true ->
        Q {| ps_id := id; ps_vector := v;
             ps_payload := chunk_metadata file_path (Z.of_nat k) c |}) ->
    Forall Q (points (ingest_chunks file_path (Z.of_nat (length pre)) chunks st)).
Proof.
  induction chunks as [|c chunks IH]; intros pre st Hst HQ; simpl; [exact Hst|].
  replace (Z.of_nat (length pre) + 1) with (Z.of_nat (length (pre ++ [c])))
    by (rewrite length_app; simpl; lia).
  apply IH.
  - destruct (ingest_chunk_points file_path (Z.of_nat (length pre)) c st)
      as [-> | (Hns & v & ->)]; [exact Hst|].
    apply Forall_app. split; [exact Hst|]. constructor; [|constructor].
    apply HQ; [|exact Hns]. apply list_lookup_middle. reflexivity.
  - intros k c' id v Hk. apply HQ. now rewrite <- app_assoc in Hk.
Qed.

Lemma ingest_file_from_corpus (dirs : list (string * list string))
    (root : string) (files : list string) (file_name : string) (st st' : IngestState) :
  In (root, files) dirs -> In file_name files ->
  Forall (point_from_corpus dirs) (points st) ->
  ingest_file root file_name st = Some st' ->
  Forall (point_from_corpus dirs) (points st').
Proof.
  intros Hd Hf Hst Hrun. unfold ingest_file in Hrun.
  destruct (_ || _) eqn:Hext; [|now injection Hrun as <-].
  destruct (read_text _) as [content|] eqn:Hr; [|now injection Hrun as <-].
  rewrite chunk_text_default in Hrun. injection Hrun as <-.
  apply (ingest_chunks_Forall _ _ _ []); [exact Hst|].
  intros k c id v Hk Hns. simpl in Hk.
  exists root, files, file_name, content, k, c.
  repeat split; try assumption.
  unfold is_document. now rewrite Hext, Hr.
Qed.

Lemma ingest_files_from_corpus (dirs : list (string * list string))
    (root : string) (files : list string) :
  In (root, files) dirs ->
  forall (some : list string) (st st' : IngestState),
    (forall f, In f some -> In f files) ->
    Forall (point_from_corpus dirs) (points st) ->
    ingest_files root some st = Some st' ->
    Forall (point_from_corpus dirs) (points st').
Proof.
  intros Hd. induction some as [|f some IH]; intros st st' Hin Hst Hrun; simpl in Hrun.
  - now injection Hrun as <-.
  - destruct (ingest_file root f st) as [st1|] eqn:H1; [|discriminate].
    apply (IH st1 st'); [intros g Hg; apply Hin; now right| |exact Hrun].
    eapply ingest_file_from_corpus; [exact Hd|apply Hin; now left|exact Hst|exact H1].
Qed.

Lemma ingest_walk_from_corpus (dirs : list (string * list string)) :
  forall (some : list (string * list string)) (st st' : IngestState),
    (forall d, In d some -> In d dirs) ->
    Forall (point_from_corpus dirs) (points st) ->
    ingest_walk some st = Some st' ->
    Forall (point_from_corpus dirs) (points st').
Proof.
  induction some as [|[root files] some IH]; intros st st' Hin Hst Hrun; simpl in Hrun.
  - now injection Hrun as <-.
  - destruct (ingest_files root files st) as [st1|] eqn:H1; [|discriminate].
    apply (IH st1 st'); [intros d Hd; apply Hin; now right| |exact Hrun].
    eapply (ingest_files_from_corpus dirs root files);
      [apply Hin; now left|intros f Hf; exact Hf|exact Hst|exact H1].
Qed.

(** X7: the loop over the tree returns, and every point it accumulates
    carries, as its payload, the relative path of a document of the tree,
    the index of one of its chunks, and that chunk as text; the chunk is
    one that [chunk.strip()] does not empty. *)
Theorem ingest_points_from_corpus (dirs : list (string * list string)) (w : World) :
  exists st : IngestState,
    ingest_walk dirs {| points := []; point_id_counter := 0; ing_world := w |} = Some st /\
    Forall (point_from_corpus dirs) (points st).
Proof.
  destruct (ingest_walk_inv w dirs _ (ingest_inv_start w)) as (st & Hst & _).
  exists st. split; [exact Hst|].
  eapply (ingest_walk_from_corpus _ _ _ st); [intros d Hd; exact Hd| |exact Hst].
  constructor.
Qed.

(** X20: the loop numbers its points. One chunk either changes nothing
    (it is blank), or costs its requests and adds nothing (no embedding
    came back), or adds one point with the counter as its id and moves the
    counter by one. So the walk from the counter 0 and no points returns
    with the counter at the number of points and with the ids
    [0, 1, ..., N-1] in the order the points were made. *)
Theorem ingest_walk_point_ids (dirs : list (string * list string)) (w : World) :
  (forall (file_path : string) (i : Z) (chunk : string) (st : IngestState),
     match py_truthy (py_strip chunk),
           generate_embedding chunk DEFAULT_MAX_RETRIES DEFAULT_DELAY (ing_world st) with
     | false, _ => ingest_chunk file_path i chunk st = st
     | true, (None, w1) =>
         ingest_chunk file_path i chunk st =
         {| points := points st; point_id_counter := point_id_counter st; ing_world := w1 |}
     | true, (Some v, w1) =>
         ingest_chunk file_path i chunk st =
         {| points := points st ++
                      [{| ps_id := point_id_counter st; ps_vector := v;
                          ps_payload := chunk_metadata file_path i chunk |}];
            point_id_counter := point_id_counter st + 1;
            ing_world := w1 |}
     end) /\
  exists st : IngestState,
    ingest_walk dirs {| points := []; point_id_counter := 0; ing_world := w |} = Some st /\
    point_id_counter st = Z.of_nat (length (points st)) /\
    map ps_id (points st) = map Z.of_nat (seq 0 (length (points st))) /\
    (length (points st) <= embed_calls (new_events w (ing_world st)))%nat.
Proof.
  split.
  - intros file_path i chunk st. unfold ingest_chunk.
    destruct (py_truthy (py_strip chunk)); cbn [negb];
      destruct (generate_embedding chunk DEFAULT_MAX_RETRIES DEFAULT_DELAY (ing_world st))
        as [[v|] w1]; reflexivity.
  - destruct (ingest_walk_inv w dirs _ (ingest_inv_start w))
      as (st & Hst & Hn & Hids & _ & _ & evs & Ht & _ & Hcalls).
    exists st. split; [exact Hst|]. split; [exact Hn|]. split; [exact Hids|].
    now rewrite (new_events_app _ _ _ Ht).
Qed.

End IngestViewsProps.

Section IngestIndex.
Context `{Services}.

(** X8: a run empties the index. The collection is recreated, for vectors
    of size 768, and the run ends before it stores a point: whatever the
    collection held before is gone, no id is present afterwards, and the
    other collections of the server are as they were. The LLM handle is
    untouched and a Qdrant client is in place. *)
Theorem ingest_run_empties_index (w : World) :
  exists w' : World,
    ingest_book_content w = Some (Raise (AwaitTypeError "bool"), w') /\
    (exists c : Collection,
        qdrant_collections w' !! QDRANT_COLLECTION_NAME = Some c /\
        vectors_size c = 768 /\
        forall k : Z, col_points c !! k = None) /\
    (forall name : string,
        name <> QDRANT_COLLECTION_NAME ->
        qdrant_collections w' !! name = qdrant_collections w !! name) /\
    gemini_model w' = gemini_model w /\
    is_Some (qdrant_client_instance w').
Proof.
  exists (snd (ingest_ensure_collection w)).
  destruct (ingest_ensure_collection_raises w) as (_ & _ & Hq & Hg & _ & _ & Hc).
  split; [apply ingest_run_raises|]. split; [|split; [|split; assumption]].
  - exists {| vectors_size := 768; col_points := ∅ |}.
    split; [rewrite Hq; apply lookup_insert_eq|]. split; [reflexivity|].
    intros k. apply lookup_empty.
  - intros name Hne. rewrite Hq. now apply lookup_insert_ne.
Qed.

End IngestIndex.

(** ** The Qdrant client singleton *)

Section ClientProps.
Context `{Services}.

(** X11: [get_qdrant_client] builds the client from the configuration
    when there is none, keeps it, and returns that same client from then on
    without changing anything; it calls nothing. [close_qdrant_client]
    forgets the client, so that the next call builds one again. *)
Theorem qdrant_client_singleton (w : World) :
  let c := fst (get_qdrant_client w) in
  let w1 := snd (get_qdrant_client w) in
  qdrant_client_instance w1 = Some c /\
  get_qdrant_client w1 = (c, w1) /\
  trace w1 = trace w /\
  qdrant_collections w1 = qdrant_collections w /\
  match qdrant_client_instance w with
  | Some c0 => c = c0 /\ w1 = w
  | None => c = {| client_host := QDRANT_HOST; client_api_key := QDRANT_API_KEY |}
  end /\
  qdrant_client_instance (close_qdrant_client w1) = None /\
  close_qdrant_client (close_qdrant_client w1) = close_qdrant_client w1 /\
  fst (get_qdrant_client (close_qdrant_client w1)) =
    {| client_host := QDRANT_HOST; client_api_key := QDRANT_API_KEY |}.
Proof.
  unfold get_qdrant_client, close_qdrant_client.
  destruct (qdrant_client_instance w) as [c0|] eqn:Hc; simpl; rewrite ?Hc; simpl;
    repeat split; reflexivity.
Qed.

End ClientProps.

(** ** Sign-up, log-in and the user store *)

Section StoreProps.
Context `{AuthLib}.

Lemma first_request_name (u : string) (reqs : list (string * UserCreate))
    (req : string * UserCreate) :
  first_request u reqs = Some req -> uc_username (snd req) = u.
Proof.
  intros Hf. apply find_some in Hf as [_ He]. now apply String.eqb_eq in He.
Qed.

(** The store after a run of sign-ups, user by user. *)
Lemma signups_lookup :
  forall (reqs : list (string * UserCreate)) (users_db : gmap string UserRecord) (u : string),
    signups reqs users_db !! u =
    match users_db !! u with
    | Some r => Some r
    | None => record_of <$> first_request u reqs
    end.
Proof.
  induction reqs as [|[salt ud] reqs IH]; intros users_db u.
  - simpl. now destruct (users_db !! u).
  - cbn [signups]. rewrite IH. unfold signup, first_request. cbn [List.find snd].
    destruct (String.eqb_spec (uc_username ud) u) as [Heq|Hne].
    + subst u. destruct (users_db !! uc_username ud) eqn:Hu; simpl.
      * now rewrite Hu.
      * now rewrite lookup_insert_eq.
    + destruct (users_db !! uc_username ud) eqn:Hu; simpl.
      * reflexivity.
      * now rewrite lookup_insert_ne.
Qed.

(** X12: sign-ups never overwrite. A record that the store holds stays as
    it is whatever sign-ups follow, and [get_user] keeps returning it; a
    request for a name that is taken is refused with status 400 and leaves
    the store as it is; and a name is in the store after a run of sign-ups
    only if it was there before or some request of the run asked for it. *)
Theorem signups_never_overwrite (reqs : list (string * UserCreate))
    (users_db : gmap string UserRecord) (u : string) :
  (forall r : UserRecord,
     users_db !! u = Some r ->
     signups reqs users_db !! u = Some r /\
     get_user u (signups reqs users_db) =
       Some {| db_username := u;
               db_hashed_password := hashed_password r;
               db_email := Some (email r);
               db_full_name := Some (full_name r) |} /\
     forall (salt : string) (user_data : UserCreate),
       uc_username user_data = u ->
       signup salt user_data users_db =
       (Raise (HTTPException 400 "Username already registered"), users_db)) /\
  (is_Some (signups reqs users_db !! u) ->
   is_Some (users_db !! u) \/
   exists req, In req reqs /\ uc_username (snd req) = u).
Proof.
  split.
  - intros r Hu.
    assert (signups reqs users_db !! u = Some r) as Hkeep
      by (rewrite signups_lookup; now rewrite Hu).
    split; [exact Hkeep|]. split.
    + unfold get_user. now rewrite Hkeep.
    + intros salt user_data <-. unfold signup. now rewrite Hu.
  - rewrite signups_lookup. destruct (users_db !! u) as [r|]; [left; eauto|].
    destruct (first_request u reqs) as [req|] eqn:Hf; simpl.
    + intros _. right. exists req. split.
      * apply find_some in Hf. tauto.
      * now apply (first_request_name u reqs).
    + intros [x Hx]. discriminate.
Qed.

End StoreProps.

Lemma signups_never_overwrite_witness :
  signups (H := Demo.demo_auth) [("s2", DemoLogin.ada_again)]
    (snd (signup (H := Demo.demo_auth) "s1" DemoLogin.ada ∅)) !! "ada" =
    Some {| hashed_password := "s1$pw"; email := "ada@example.org"; full_name := "ada" |} /\
  get_user "ada"
    (signups (H := Demo.demo_auth) [("s2", DemoLogin.ada_again)]
       (snd (signup (H := Demo.demo_auth) "s1" DemoLogin.ada ∅))) =
    Some {| db_username := "ada"; db_hashed_password := "s1$pw";
            db_email := Some "ada@example.org"; db_full_name := Some "ada" |} /\
  forall (salt : string) (user_data : UserCreate),
    uc_username user_data = "ada" ->
    signup (H := Demo.demo_auth) salt user_data
      (snd (signup (H := Demo.demo_auth) "s1" DemoLogin.ada ∅)) =
    (Raise (HTTPException 400 "Username already registered"),
     snd (signup (H := Demo.demo_auth) "s1" DemoLogin.ada ∅)).
Proof.
  apply (proj1 (signups_never_overwrite (H := Demo.demo_auth)
                  [("s2", DemoLogin.ada_again)]
                  (snd (signup (H := Demo.demo_auth) "s1" DemoLogin.ada ∅)) "ada")
           {| hashed_password := "s1$pw"; email := "ada@example.org"; full_name := "ada" |}).
  reflexivity.
Defined.

Section LoginProps.
Context `{AuthLib} `{TokenLib}.

(** X13: sign-up, log-in and /auth/me in a row. For a user name that is
    free, a password that verifies against its own hash, and a token that
    the decoder accepts with its subject, the log-in after the sign-up
    returns a bearer token, and /auth/me for that token returns the user
    name, the e-mail address of the sign-up and the user name as
    [full_name]. *)
Theorem signup_login_me_round_trip (utcnow : Z) (salt : string) (user_data : UserCreate)
    (users_db : gmap string UserRecord) :
  users_db !! uc_username user_data = None ->
  pwd_verify (uc_password user_data) (pwd_hash salt (uc_password user_data)) = true ->
  jwt_decode
    (jwt_encode (<["exp" := CTime (utcnow + timedelta_minutes ACCESS_TOKEN_EXPIRE_MINUTES)]>
                   (<["sub" := CStr (uc_username user_data)]> ∅)))
    = Some {| sub := Some (uc_username user_data) |} ->
  let users_db' := snd (signup salt user_data users_db) in
  exists token : string,
    login_for_access_token utcnow (uc_username user_data) (uc_password user_data) users_db'
      = LoginOk {| access_token := token; token_type := "bearer" |} /\
    read_users_me token users_db'
      = Ok {| u_username := uc_username user_data;
              u_email := uc_email user_data;
              u_full_name := Some (uc_username user_data) |}.
Proof.
  intros Hfree Hverify Hdecode users_db'.
  assert (users_db' !! uc_username user_data =
          Some (record_of (salt, user_data))) as Hrec.
  { unfold users_db', signup. rewrite Hfree. simpl. apply lookup_insert_eq. }
  eexists. unfold login_for_access_token. rewrite Hrec.
  unfold verify_password, record_of, get_password_hash. simpl.
  rewrite Hverify. simpl. split; [reflexivity|].
  unfold read_users_me, decode_access_token, create_access_token.
  assert (timedelta_truthy (Some (timedelta_minutes ACCESS_TOKEN_EXPIRE_MINUTES)) = true)
    as -> by reflexivity.
  rewrite Hdecode. simpl. rewrite Hrec. reflexivity.
Qed.

(** X14: the log-in route returns a token only for a stored user whose
    password verifies against the stored hash, and every refusal is the
    same exception, 401 with one detail and the [WWW-Authenticate] header,
    for an unknown user as for a wrong password. *)
Theorem login_refusals_are_uniform (utcnow : Z) (username password : string)
    (users_db : gmap string UserRecord) :
  let ok :=
    match users_db !! username with
    | Some user => verify_password password (hashed_password user)
    | None => false
    end in
  (forall t, login_for_access_token utcnow username password users_db = LoginOk t ->
     ok = true /\ token_type t = "bearer" /\
     access_token t =
       create_access_token utcnow (<["sub" := CStr username]> ∅)
         (Some (timedelta_minutes ACCESS_TOKEN_EXPIRE_MINUTES))) /\
  (forall status detail headers,
     login_for_access_token utcnow username password users_db
       = LoginRaise status detail headers ->
     ok = false /\ status = 401 /\ detail = "Incorrect username or password" /\
     headers = [("WWW-Authenticate", "Bearer")]) /\
  (ok = false ->
   login_for_access_token utcnow username password users_db = incorrect_credentials).
Proof.
  intros ok. unfold ok, login_for_access_token, incorrect_credentials.
  destruct (users_db !! username) as [user|].
  - destruct (verify_password password (hashed_password user)); simpl.
    + split; [|split]; [| |discriminate].
      * intros t Ht. injection Ht as <-. repeat split.
      * intros status detail headers Hr. discriminate.
    + split; [|split]; [| |reflexivity].
      * intros t Ht. discriminate.
      * intros status detail headers Hr. injection Hr as <- <- <-. repeat split.
  - split; [|split]; [| |reflexivity].
    + intros t Ht. discriminate.
    + intros status detail headers Hr. injection Hr as <- <- <-. repeat split.
Qed.


End LoginProps.

Lemma signup_login_me_round_trip_witness :
  exists token : string,
    login_for_access_token (H0 := DemoLogin.demo_tokens)
      0 "ada" "pw" (snd (signup (H := Demo.demo_auth) "salt" DemoLogin.ada ∅))
      = LoginOk {| access_token := token; token_type := "bearer" |} /\
    read_users_me (H := Demo.demo_auth) token
      (snd (signup (H := Demo.demo_auth) "salt" DemoLogin.ada ∅))
      = Ok {| u_username := "ada"; u_email := "ada@example.org";
              u_full_name := Some "ada" |}.
Proof.
  apply (signup_login_me_round_trip (H := Demo.demo_auth) (H0 := DemoLogin.demo_tokens)
           0 "salt" DemoLogin.ada ∅); reflexivity.
Defined.

(** ** The /chat route: its calls and its failures *)

Section ChatOutcomes.
Context `{Services}.

Lemma get_qdrant_client_frame (w : World) :
  trace (snd (get_qdrant_client w)) = trace w /\
  gemini_model (snd (get_qdrant_client w)) = gemini_model w /\
  qdrant_collections (snd (get_qdrant_client w)) = qdrant_collections w /\
  llm_svc (snd (get_qdrant_client w)) = llm_svc w /\
  is_Some (qdrant_client_instance (snd (get_qdrant_client w))).
Proof.
  unfold get_qdrant_client.
  destruct (qdrant_client_instance w) eqn:Hc; simpl; repeat split; eauto.
Qed.

(** The ways a request can go once the LLM handle is there: after the
    requests for the embedding of the question, [evs], the route stops on a
    failed embedding, or it asks for the search and stops on it: on the
    refusal of a server without the collection, and otherwise on the
    [await] of the list that the client returned. *)
Lemma chat_outcomes (request : ChatRequest) (w : World) (model : GenerativeModel) :
  gemini_model w = Some model ->
  let run := chat_with_rag request w in
  gemini_model (snd run) = gemini_model w /\
  qdrant_collections (snd run) = qdrant_collections w /\
  llm_svc (snd run) = llm_svc w /\
  is_Some (qdrant_client_instance (snd run)) /\
  exists evs : list Event,
    forallb is_embed_event evs = true /\
    ((fst run = Raise (HTTPException 500 "Failed to generate query embedding.") /\
      new_events w (snd run) = evs) \/
     (exists qe,
        fst run =
          Raise (HTTPException 500
                   ("Qdrant search failed: " +:+
                    exn_str match qdrant_collections w !! QDRANT_COLLECTION_NAME with
                            | Some _ => AwaitTypeError "list"
                            | None => ServiceError "Collection not found"
                            end)) /\
        new_events w (snd run) = evs ++ [EvSearch QDRANT_COLLECTION_NAME qe 5])).
Proof.
  intros Hg run. unfold run. rewrite (chat_with_rag_run request w model Hg).
  destruct (get_qdrant_client_frame w) as (Ht0 & Hg0 & Hq0 & Hl0 & Hc0).
  destruct (get_qdrant_client w) as [client w0]. cbn [snd] in *.
  pose proof (generate_embedding_step (question request) DEFAULT_MAX_RETRIES DEFAULT_DELAY w0)
    as (Hc1 & Hg1 & Hl1 & Hq1 & evs & Ht1 & He).
  destruct (generate_embedding _ _ _ w0) as [[qe|] w1]; cbn [fst snd] in *.
  2:{ split; [congruence|]. split; [congruence|]. split; [congruence|].
      split; [now rewrite Hc1|].
      exists evs. split; [exact He|]. left. split; [reflexivity|].
      apply new_events_app. now rewrite Ht1, Ht0. }
  destruct (get_qdrant_client_frame w1) as (Ht2 & Hg2 & Hq2 & Hl2 & Hc2).
  destruct (get_qdrant_client w1) as [client1 w2]. cbn [snd] in *.
  assert (qdrant_collections w2 = qdrant_collections w) as Hq by congruence.
  simpl. rewrite Hq.
  split; [congruence|]. split; [reflexivity|]. split; [congruence|]. split; [exact Hc2|].
  exists evs. split; [exact He|]. right. exists qe. split; [reflexivity|].
  apply new_events_app. cbn [trace emit]. rewrite Ht2, Ht1, Ht0. now rewrite <- app_assoc.
Qed.

End ChatOutcomes.

Lemma new_events_same `{Services} (w : World) : new_events w w = [].
Proof. unfold new_events. apply drop_all. Qed.


Section ChatDiscipline.
Context `{Services}.


(** X17: with no collection on the server /chat answers with status 500
    and never calls the LLM: it fails on the missing LLM handle, on the
    embedding of the question, or on the search, which the server refuses. *)
Theorem chat_without_collection (request : ChatRequest) (w : World) :
  qdrant_collections w !! QDRANT_COLLECTION_NAME = None ->
  let run := chat_with_rag request w in
  llm_calls (new_events w (snd run)) = 0%nat /\
  (fst run = Raise (HTTPException 500 "Gemini client not initialized.") \/
   fst run = Raise (HTTPException 500 "Failed to generate query embedding.") \/
   fst run = Raise (HTTPException 500 "Qdrant search failed: Collection not found")).
Proof.
  intros Hnone run. unfold run.
  destruct (gemini_model w) as [model|] eqn:Hg.
  2:{ rewrite (chat_gemini_unset request w Hg). simpl. rewrite new_events_same.
      split; [reflexivity|now left]. }
  destruct (chat_outcomes request w model Hg) as (_ & _ & _ & _ & evs0 & He & Hcases).
  destruct (embed_events_count evs0 He) as (_ & Hl0 & _ & _).
  rewrite Hnone in Hcases.
  destruct Hcases as [(Hr & Hev)|(qe & Hr & Hev)].
  - rewrite Hev, Hl0. split; [reflexivity|]. right. now left.
  - rewrite Hev, llm_calls_app, Hl0. split; [reflexivity|]. right. now right.
Qed.

End ChatDiscipline.

Lemma chat_without_collection_witness :
  llm_calls (new_events (Demo.llm_only [])
               (snd (chat_with_rag {| question := "q"; selected_text := None |}
                       (Demo.llm_only [])))) = 0%nat /\
  (fst (chat_with_rag {| question := "q"; selected_text := None |} (Demo.llm_only []))
     = Raise (HTTPException 500 "Gemini client not initialized.") \/
   fst (chat_with_rag {| question := "q"; selected_text := None |} (Demo.llm_only []))
     = Raise (HTTPException 500 "Failed to generate query embedding.") \/
   fst (chat_with_rag {| question := "q"; selected_text := None |} (Demo.llm_only []))
     = Raise (HTTPException 500 "Qdrant search failed: Collection not found")).
Proof.
  apply (chat_without_collection {| question := "q"; selected_text := None |}
           (Demo.llm_only [])).
  reflexivity.
Defined.

(** ** Start-up, then /chat *)

Section LifespanProps.
Context `{Services} `{StartupEnv}.

(** X19: the start-up of a fresh process always completes: what the
    Qdrant check raises is caught. It leaves a Qdrant client in place, has
    asked the server for its collections and for nothing else, and has
    changed none of them, so a collection that was absent is still absent.
    It sets the LLM handle exactly when the API key is set, and not empty,
    and the handle can be built. Without the handle every /chat request is
    answered 500 with no call made; with it, /chat goes on to the embedding
    service, and is answered 500 as well. *)
Theorem startup_then_chat (a : App) (request : ChatRequest) :
  gemini_model (app_world a) = None ->
  let w1 := app_world (lifespan_startup a) in
  is_Some (qdrant_client_instance w1) /\
  qdrant_collections w1 = qdrant_collections (app_world a) /\
  new_events (app_world a) w1 = [EvGetCollections] /\
  (is_Some (gemini_model w1) <->
   context_truthy GEMINI_API_KEY = true /\ generative_model_raises = false) /\
  (gemini_model w1 = None ->
   chat_with_rag request w1 =
   (Raise (HTTPException 500 "Gemini client not initialized."), w1)) /\
  (is_Some (gemini_model w1) ->
   (exists evs,
      trace (snd (chat_with_rag request w1)) =
      trace w1 ++ final_attempt (question request) ++ evs) /\
   exists detail, fst (chat_with_rag request w1) = Raise (HTTPException 500 detail)).
Proof.
  intros Hfresh w1.
  set (w0 := snd (initialize_qdrant_collection (app_world a))).
  destruct (initialize_raises (app_world a)) as (_ & Ht0 & Hq0 & Hg0 & _ & _ & Hc0).
  fold w0 in Ht0, Hq0, Hg0, Hc0. rewrite Hfresh in Hg0.
  assert (w1 = if negb (context_truthy GEMINI_API_KEY) then w0
               else if generative_model_raises then set_gemini_model None w0
               else set_gemini_model (Some {| model_name := "gemini-1.5-flash" |}) w0)
    as Hw1.
  { unfold w1, lifespan_startup, w0.
    destruct (initialize_qdrant_collection (app_world a)). reflexivity. }
  assert (is_Some (qdrant_client_instance w1) /\
          qdrant_collections w1 = qdrant_collections w0 /\
          trace w1 = trace w0 /\
          (is_Some (gemini_model w1) <->
           context_truthy GEMINI_API_KEY = true /\ generative_model_raises = false))
    as (Hc1 & Hq1 & Ht1 & Hg1).
  { rewrite Hw1.
    destruct (context_truthy GEMINI_API_KEY); simpl;
      [destruct generative_model_raises; simpl|];
      (split; [exact Hc0|]); (split; [reflexivity|]); (split; [reflexivity|]);
      rewrite ?Hg0;
      split; intros Hx; try (destruct Hx as [? Hx]; discriminate);
      try (destruct Hx; discriminate); eauto. }
  split; [exact Hc1|]. split; [congruence|].
  split; [apply new_events_app; congruence|].
  split; [exact Hg1|]. split.
  - intros Hnone. now apply chat_gemini_unset.
  - intros [model Hm]. split; [now apply (chat_calls_embedding request w1 model)|].
    destruct (chat_never_answers request w1 model Hm) as [Hr|(e & _ & Hr)];
      rewrite Hr; eauto.
Qed.

End LifespanProps.

Lemma startup_then_chat_witness :
  chat_with_rag {| question := "q"; selected_text := None |}
    (app_world (lifespan_startup (H0 := DemoStartup.no_key) DemoStartup.fresh_app)) =
  (Raise (HTTPException 500 "Gemini client not initialized."),
   app_world (lifespan_startup (H0 := DemoStartup.no_key) DemoStartup.fresh_app)).
Proof.
  destruct (startup_then_chat (H0 := DemoStartup.no_key) DemoStartup.fresh_app
              {| question := "q"; selected_text := None |} eq_refl)
    as (_ & _ & _ & _ & Hnone & _).
  apply Hnone. reflexivity.
Defined.

Example startup_with_key_demo :
  gemini_model (app_world (lifespan_startup (H0 := DemoStartup.with_key) DemoStartup.fresh_app))
  = Some {| model_name := "gemini-1.5-flash" |}.
Proof. reflexivity. Qed.
